(** * The realtime connection manager of static/js/websockets.js

    A shallow embedding of class [TIMBWebSocket]: the registry of named
    WebSocket connections, reconnection with backoff, the heartbeat, the
    dispatch of inbound frames and the broadcast to subscribers.

    The class runs inside a browser.  Its methods are embedded as
    computations in a state-and-exception monad over a [world] that holds the
    fields of the instance next to the part of the host the methods touch:
    the heap of WebSocket objects, the pending timers, the listeners that
    [subscribe] adds to [document], and a trace of what the host was asked
    to do.

    Time is not measured: a timer is recorded with its delay when it is set,
    and the host may fire a pending timer at any turn of the event loop.
    Delays and attempt counts are small non-negative integers, on which the
    doubles of JavaScript are exact, and are embedded in [Z]. *)

From Stdlib Require Import ZArith Lia Bool.
From stdpp Require Import base list strings pretty.

Open Scope Z_scope.
Set Warnings "-register-all".

(** ** JavaScript values

    Decoded frames, outbound messages, callback arguments and thrown errors.
    Numbers are the integers among the doubles; the manager never computes
    with a number that comes from a frame. *)
Inductive jsval :=
| JUndefined
| JNull
| JBool (b : bool)
| JNum (z : Z)
| JStr (s : string)
| JArr (items : list jsval)
| JObj (fields : list (string * jsval))
| JErr (kind : string).

(** An own property of an object literal, [undefined] when it is missing. *)
Fixpoint own_property (fields : list (string * jsval)) (key : string) : jsval :=
  match fields with
  | [] => JUndefined
  | (k, v) :: rest => if String.eqb k key then v else own_property rest key
  end.

(** ** [Map]: keys in insertion order, as [forEach] visits them. *)
Module JsMap.

Definition t (V : Type) := list (string * V).

Definition empty {V} : t V := [].

Fixpoint get {V} (m : t V) (k : string) : option V :=
  match m with
  | [] => None
  | (k', v) :: rest => if String.eqb k' k then Some v else get rest k
  end.

Definition has {V} (m : t V) (k : string) : bool :=
  match get m k with Some _ => true | None => false end.

(** [set] keeps the position of a key that is present and appends a new one. *)
Fixpoint set {V} (m : t V) (k : string) (v : V) : t V :=
  match m with
  | [] => [(k, v)]
  | (k', v') :: rest =>
      if String.eqb k' k then (k', v) :: rest else (k', v') :: set rest k v
  end.

Fixpoint delete {V} (m : t V) (k : string) : t V :=
  match m with
  | [] => []
  | (k', v') :: rest =>
      if String.eqb k' k then delete rest k else (k', v') :: delete rest k
  end.

Definition keys {V} (m : t V) : list string := map fst m.

End JsMap.

(** ** Callbacks

    A callback handed to the manager is opaque to it: the manager calls it,
    and the call returns or throws.  A callback is modelled by an identity,
    under which its calls are recorded, and by which arguments make it
    throw.  Callbacks do not call back into the manager while they run. *)
Record callback := Callback {
  cb_id : nat;
  cb_raises : list jsval -> option jsval
}.

(** The [handlers] argument of [connect]; a missing slot is falsy. *)
Record handlers := Handlers {
  onConnect : option callback;
  onMessage : option callback;
  onDisconnect : option callback;
  onError : option callback
}.

Definition no_handlers : handlers := Handlers None None None None.

(** ** The host *)

Inductive ready_state := CONNECTING | OPEN | CLOSING | CLOSED.

Definition ready_state_eqb (a b : ready_state) : bool :=
  match a, b with
  | CONNECTING, CONNECTING | OPEN, OPEN | CLOSING, CLOSING | CLOSED, CLOSED => true
  | _, _ => false
  end.

(** A WebSocket object.  Its four event handlers are the closures that
    [connect] installs; they capture [name], [url] and [handlers]. *)
Record WebSocket := Socket {
  ws_url : string;
  readyState : ready_state;
  ws_name : string;
  ws_handlers : handlers
}.

(** What a pending [setTimeout] will run. *)
Inductive timeout_job :=
| Hide_indicator
| Reconnect (name url : string) (h : handlers) (attempts : Z).

(** What a [setInterval] of [startHeartbeat] runs: the closure captures
    [name] and the socket [ws]. *)
Record interval_job := Beat { hb_name : string; hb_ws : nat }.

(** The status element that [createStatusIndicator] adds to the page. *)
Record indicator := Indicator {
  ind_status : string;
  ind_text : string;
  ind_hidden : bool
}.

(** What the host is asked to do, in order. *)
Inductive effect :=
| Console_log (msg : string) (args : list jsval)
| Console_error (msg : string) (args : list jsval)
| New_WebSocket (id : nat) (url : string)
| Close_called (id : nat) (code : Z) (reason : string)
| Transmit (id : nat) (frame : string)
| Invoke (cb : nat) (args : list jsval)
| Set_timeout (tid : nat) (delay : Z) (job : timeout_job)
| Set_interval (tid : nat) (delay : Z)
| Clear_interval (tid : nat)
| Dispatch (source : string) (data : jsval).

Record world := World {
  (* fields of the TIMBWebSocket instance *)
  connections : JsMap.t nat;
  reconnectAttempts : JsMap.t Z;
  maxReconnectAttempts : Z;
  reconnectDelay : Z;
  heartbeatInterval : Z;
  heartbeatTimers : JsMap.t nat;
  messageHandlers : JsMap.t handlers;
  statusIndicator : option indicator;
  (* the host *)
  sockets : list WebSocket;
  timeouts : list (nat * Z * timeout_job);
  intervals : list (nat * Z * interval_job);
  next_timer : nat;
  listeners : list (string * callback);
  trace : list effect
}.

Definition set_connections (f : JsMap.t nat -> JsMap.t nat) (w : world) : world :=
  World (f (connections w)) (reconnectAttempts w) (maxReconnectAttempts w)
    (reconnectDelay w) (heartbeatInterval w) (heartbeatTimers w)
    (messageHandlers w) (statusIndicator w) (sockets w) (timeouts w)
    (intervals w) (next_timer w) (listeners w) (trace w).

Definition set_reconnectAttempts (f : JsMap.t Z -> JsMap.t Z) (w : world) : world :=
  World (connections w) (f (reconnectAttempts w)) (maxReconnectAttempts w)
    (reconnectDelay w) (heartbeatInterval w) (heartbeatTimers w)
    (messageHandlers w) (statusIndicator w) (sockets w) (timeouts w)
    (intervals w) (next_timer w) (listeners w) (trace w).

Definition set_heartbeatTimers (f : JsMap.t nat -> JsMap.t nat) (w : world) : world :=
  World (connections w) (reconnectAttempts w) (maxReconnectAttempts w)
    (reconnectDelay w) (heartbeatInterval w) (f (heartbeatTimers w))
    (messageHandlers w) (statusIndicator w) (sockets w) (timeouts w)
    (intervals w) (next_timer w) (listeners w) (trace w).

Definition set_messageHandlers (f : JsMap.t handlers -> JsMap.t handlers) (w : world) : world :=
  World (connections w) (reconnectAttempts w) (maxReconnectAttempts w)
    (reconnectDelay w) (heartbeatInterval w) (heartbeatTimers w)
    (f (messageHandlers w)) (statusIndicator w) (sockets w) (timeouts w)
    (intervals w) (next_timer w) (listeners w) (trace w).

Definition set_statusIndicator (f : option indicator -> option indicator) (w : world) : world :=
  World (connections w) (reconnectAttempts w) (maxReconnectAttempts w)
    (reconnectDelay w) (heartbeatInterval w) (heartbeatTimers w)
    (messageHandlers w) (f (statusIndicator w)) (sockets w) (timeouts w)
    (intervals w) (next_timer w) (listeners w) (trace w).

Definition set_sockets (f : list WebSocket -> list WebSocket) (w : world) : world :=
  World (connections w) (reconnectAttempts w) (maxReconnectAttempts w)
    (reconnectDelay w) (heartbeatInterval w) (heartbeatTimers w)
    (messageHandlers w) (statusIndicator w) (f (sockets w)) (timeouts w)
    (intervals w) (next_timer w) (listeners w) (trace w).

Definition set_timeouts (f : list (nat * Z * timeout_job) -> list (nat * Z * timeout_job))
    (w : world) : world :=
  World (connections w) (reconnectAttempts w) (maxReconnectAttempts w)
    (reconnectDelay w) (heartbeatInterval w) (heartbeatTimers w)
    (messageHandlers w) (statusIndicator w) (sockets w) (f (timeouts w))
    (intervals w) (next_timer w) (listeners w) (trace w).

Definition set_intervals (f : list (nat * Z * interval_job) -> list (nat * Z * interval_job))
    (w : world) : world :=
  World (connections w) (reconnectAttempts w) (maxReconnectAttempts w)
    (reconnectDelay w) (heartbeatInterval w) (heartbeatTimers w)
    (messageHandlers w) (statusIndicator w) (sockets w) (timeouts w)
    (f (intervals w)) (next_timer w) (listeners w) (trace w).

Definition set_next_timer (f : nat -> nat) (w : world) : world :=
  World (connections w) (reconnectAttempts w) (maxReconnectAttempts w)
    (reconnectDelay w) (heartbeatInterval w) (heartbeatTimers w)
    (messageHandlers w) (statusIndicator w) (sockets w) (timeouts w)
    (intervals w) (f (next_timer w)) (listeners w) (trace w).

Definition set_listeners (f : list (string * callback) -> list (string * callback))
    (w : world) : world :=
  World (connections w) (reconnectAttempts w) (maxReconnectAttempts w)
    (reconnectDelay w) (heartbeatInterval w) (heartbeatTimers w)
    (messageHandlers w) (statusIndicator w) (sockets w) (timeouts w)
    (intervals w) (next_timer w) (f (listeners w)) (trace w).

Definition emit (e : effect) (w : world) : world :=
  World (connections w) (reconnectAttempts w) (maxReconnectAttempts w)
    (reconnectDelay w) (heartbeatInterval w) (heartbeatTimers w)
    (messageHandlers w) (statusIndicator w) (sockets w) (timeouts w)
    (intervals w) (next_timer w) (listeners w) (trace w ++ [e]).

(** ** The monad: state, and the exceptions of JavaScript

    A computation returns or throws, and the state it reached is kept in
    both cases. *)
Inductive outcome (A : Type) :=
| Normal (a : A)
| Throw (e : jsval).
Arguments Normal {A} a.
Arguments Throw {A} e.

Definition M (A : Type) : Type := world -> outcome A * world.

#[global] Instance M_ret : MRet M := fun A a w => (Normal a, w).

#[global] Instance M_bind : MBind M := fun A B f m w =>
  match m w with
  | (Normal a, w') => f a w'
  | (Throw e, w') => (Throw e, w')
  end.

Definition throw {A} (e : jsval) : M A := fun w => (Throw e, w).

(** [try { body } catch (error) { handler error }] *)
Definition try_catch {A} (body : M A) (handler : jsval -> M A) : M A := fun w =>
  match body w with
  | (Normal a, w') => (Normal a, w')
  | (Throw e, w') => handler e w'
  end.

Definition gets {A} (f : world -> A) : M A := fun w => (Normal (f w), w).
Definition modify (f : world -> world) : M unit := fun w => (Normal tt, f w).
Definition when (b : bool) (m : M unit) : M unit := if b then m else mret tt.

(** A call of a callback is recorded, and returns or throws. *)
Definition call (cb : callback) (args : list jsval) : M unit := fun w =>
  (match cb_raises cb args with Some e => Throw e | None => Normal tt end,
   emit (Invoke (cb_id cb) args) w).

(** [if (slot) { slot(args) }] for an optional callback. *)
Definition call_if_set (slot : option callback) (args : list jsval) : M unit :=
  match slot with
  | Some cb => call cb args
  | None => mret tt
  end.

Definition console_log (msg : string) (args : list jsval) : M unit :=
  modify (emit (Console_log msg args)).
Definition console_error (msg : string) (args : list jsval) : M unit :=
  modify (emit (Console_error msg args)).

(** The state a computation reaches, and what it returned. *)
Definition exec {A} (m : M A) (w : world) : world := snd (m w).
Definition result {A} (m : M A) (w : world) : outcome A := fst (m w).

(** ** Host operations *)

(** [setTimeout(job, delay)]: timer identifiers are positive and never reused. *)
Definition setTimeout (job : timeout_job) (delay : Z) : M nat := fun w =>
  let tid := next_timer w in
  (Normal tid,
   emit (Set_timeout tid delay job)
     (set_next_timer S (set_timeouts (fun ts => ts ++ [(tid, delay, job)]) w))).

Definition setInterval (job : interval_job) (delay : Z) : M nat := fun w =>
  let tid := next_timer w in
  (Normal tid,
   emit (Set_interval tid delay)
     (set_next_timer S (set_intervals (fun ts => ts ++ [(tid, delay, job)]) w))).

Definition clearInterval (tid : nat) : M unit :=
  modify (fun w =>
    emit (Clear_interval tid)
      (set_intervals (filter (fun t => negb (Nat.eqb (fst (fst t)) tid))) w)).

(** [ws.readyState]; every identifier the manager holds names a socket. *)
Definition ws_readyState (id : nat) : M ready_state :=
  gets (fun w => match sockets w !! id with
                 | Some s => readyState s
                 | None => CLOSED
                 end).

Definition with_readyState (r : ready_state) (s : WebSocket) : WebSocket :=
  Socket (ws_url s) r (ws_name s) (ws_handlers s).

(** [ws.close(code, reason)] starts the closing handshake of a socket that is
    connecting or open and does nothing to one that is closing or closed.
    The close event comes later, from the host. *)
Definition begin_closing (id : nat) (ss : list WebSocket) : list WebSocket :=
  match ss !! id with
  | Some s =>
      match readyState s with
      | CONNECTING | OPEN => <[id := with_readyState CLOSING s]> ss
      | CLOSING | CLOSED => ss
      end
  | None => ss
  end.

Definition ws_close (id : nat) (code : Z) (reason : string) : M unit :=
  modify (fun w =>
    emit (Close_called id code reason) (set_sockets (begin_closing id) w)).

(** [ws.send(frame)] transmits on an open socket, throws on a connecting one
    and discards the frame on a closing or closed one. *)
Definition ws_send (id : nat) (frame : string) : M unit :=
  r ← ws_readyState id;
  match r with
  | OPEN => modify (emit (Transmit id frame))
  | CONNECTING => throw (JErr "InvalidStateError")
  | CLOSING | CLOSED => mret tt
  end.

(** [data.type], [data.payload]: reading a property of [null] or [undefined]
    throws; a primitive or an array has neither property. *)
Definition property (v : jsval) (key : string) : outcome jsval :=
  match v with
  | JUndefined | JNull => Throw (JErr "TypeError")
  | JObj fields => Normal (own_property fields key)
  | _ => Normal JUndefined
  end.

Definition get_property (v : jsval) (key : string) : M jsval :=
  fun w => (property v key, w).

(** [v === 'literal'] *)
Definition strict_eq_string (v : jsval) (s : string) : bool :=
  match v with
  | JStr s' => String.eqb s' s
  | _ => false
  end.

(** ** A host for worked examples

    A frame is decoded to an envelope whose type is the text of the frame;
    the empty frame does not parse and the frame [null] decodes to [null].
    A message is serialised to its type.  The empty url is rejected. *)
Definition demo_parse (raw : string) : option jsval :=
  if String.eqb raw "" then None
  else if String.eqb raw "null" then Some JNull
  else Some (JObj [("type"%string, JStr raw); ("payload"%string, JStr raw)]).

Definition demo_stringify (v : jsval) : string :=
  match v with
  | JObj fields =>
      match own_property fields "type" with
      | JStr s => s
      | _ => ""
      end
  | _ => ""
  end.

Definition demo_reject (url : string) : option jsval :=
  if String.eqb url "" then Some (JErr "SyntaxError") else None.

Section TIMBWebSocket.

(** [JSON.parse], [JSON.stringify] and the constructor [WebSocket] belong to
    the host.  [JSON_parse] is [None] where [JSON.parse] throws;
    [JSON_stringify] is the text that reaches [ws.send]; [WebSocket_throws]
    is the error of [new WebSocket(url)] for a url the host rejects. *)
Variable JSON_parse : string -> option jsval.
Variable JSON_stringify : jsval -> string.
Variable WebSocket_throws : string -> option jsval.

(** [new WebSocket(url)], with the four handlers that [connect] assigns. *)
Definition new_WebSocket (url name : string) (h : handlers) : M nat := fun w =>
  match WebSocket_throws url with
  | Some e => (Throw e, w)
  | None =>
      let id := length (sockets w) in
      (Normal id,
       emit (New_WebSocket id url)
         (set_sockets (fun ss => ss ++ [Socket url CONNECTING name h]) w))
  end.

(** ** The methods of [TIMBWebSocket] *)

(** The fields as the constructor sets them, before [init]; the host has
    no socket, timer or listener yet.  The set [statusIndicators] is never
    read or written and is left out. *)
Definition constructor : world :=
  World JsMap.empty JsMap.empty 5 3000 30000 JsMap.empty JsMap.empty None
    [] [] [] 1%nat [] [].

Definition createStatusIndicator : M unit :=
  modify (set_statusIndicator (fun _ => Some (Indicator "" "Connecting..." false)));;
  _ ← setTimeout Hide_indicator 10000;
  mret tt.

Definition updateStatus (status message : string) : M unit :=
  ind ← gets statusIndicator;
  match ind with
  | None => mret tt
  | Some _ =>
      modify (set_statusIndicator (fun _ => Some (Indicator status message false)));;
      if String.eqb status "connected"
      then _ ← setTimeout Hide_indicator 3000; mret tt
      else mret tt
  end.

Definition stopHeartbeat (name : string) : M unit :=
  timer ← gets (fun w => JsMap.get (heartbeatTimers w) name);
  match timer with
  | Some t =>
      if Nat.eqb t 0 then mret tt
      else
        clearInterval t;;
        modify (set_heartbeatTimers (fun m => JsMap.delete m name))
  | None => mret tt
  end.

Definition startHeartbeat (name : string) : M unit :=
  ws ← gets (fun w => JsMap.get (connections w) name);
  match ws with
  | None => mret tt
  | Some id =>
      delay ← gets heartbeatInterval;
      timer ← setInterval (Beat name id) delay;
      modify (set_heartbeatTimers (fun m => JsMap.set m name timer))
  end.

Definition ping : jsval := JObj [("type"%string, JStr "ping")].

(** The body of the interval that [startHeartbeat] installs. *)
Definition heartbeat_tick (job : interval_job) : M unit :=
  r ← ws_readyState (hb_ws job);
  if ready_state_eqb r OPEN
  then ws_send (hb_ws job) (JSON_stringify ping)
  else stopHeartbeat (hb_name job).

Definition disconnect (name : string) : M unit :=
  ws ← gets (fun w => JsMap.get (connections w) name);
  match ws with
  | Some id =>
      stopHeartbeat name;;
      ws_close id 1000 "Intentional disconnect";;
      modify (set_connections (fun m => JsMap.delete m name));;
      modify (set_messageHandlers (fun m => JsMap.delete m name));;
      modify (set_reconnectAttempts (fun m => JsMap.delete m name))
  | None => mret tt
  end.

Definition connect (name url : string) (h : handlers) : M unit :=
  has ← gets (fun w => JsMap.has (connections w) name);
  when has (disconnect name);;
  updateStatus "connecting" "Connecting...";;
  try_catch
    (ws ← new_WebSocket url name h;
     modify (set_connections (fun m => JsMap.set m name ws));;
     modify (set_messageHandlers (fun m => JsMap.set m name h)))
    (fun error =>
       console_error ("Failed to create WebSocket " +:+ name +:+ ":") [error];;
       updateStatus "disconnected" "Connection Failed";;
       call_if_set (onError h) [error]).

(** [reconnectAttempts.get(name) || 0] *)
Definition attempts_or_zero (w : world) (name : string) : Z :=
  match JsMap.get (reconnectAttempts w) name with
  | Some a => a
  | None => 0
  end.

Definition scheduleReconnect (name url : string) (h : handlers) : M unit :=
  attempts ← gets (fun w => attempts_or_zero w name);
  max ← gets maxReconnectAttempts;
  if attempts >=? max then
    console_log ("Max reconnection attempts reached for " +:+ name) [];;
    updateStatus "disconnected" "Connection Failed"
  else
    base ← gets reconnectDelay;
    let delay := base * 2 ^ attempts in
    console_log ("Reconnecting to " +:+ name +:+ " in " +:+ pretty delay
                 +:+ "ms (attempt " +:+ pretty (attempts + 1) +:+ ")") [];;
    updateStatus "connecting"
      ("Reconnecting... (" +:+ pretty (attempts + 1) +:+ "/" +:+ pretty max +:+ ")");;
    _ ← setTimeout (Reconnect name url h attempts) delay;
    mret tt.

(** What a pending timeout runs when it fires. *)
Definition run_timeout (job : timeout_job) : M unit :=
  match job with
  | Hide_indicator =>
      modify (set_statusIndicator (fun ind =>
        match ind with
        | Some i => Some (Indicator (ind_status i) (ind_text i) true)
        | None => None
        end))
  | Reconnect name url h attempts =>
      modify (set_reconnectAttempts (fun m => JsMap.set m name (attempts + 1)));;
      connect name url h
  end.

Definition send (name : string) (data : jsval) : M bool :=
  ws ← gets (fun w => JsMap.get (connections w) name);
  match ws with
  | Some id =>
      r ← ws_readyState id;
      if ready_state_eqb r OPEN
      then ws_send id (JSON_stringify data);; mret true
      else mret false
  | None => mret false
  end.

(** The listener that [subscribe] adds to [document]. *)
Definition subscription_listener (eventType : string) (cb : callback)
    (source : string) (data : jsval) : M unit :=
  ty ← get_property data "type";
  if strict_eq_string ty eventType then
    payload ← get_property data "payload";
    call cb [payload; JStr source]
  else mret tt.

(** [document.dispatchEvent]: the listeners run in the order they were added;
    the host reports what a listener throws and goes on with the next one. *)
Fixpoint dispatchEvent (ls : list (string * callback)) (source : string)
    (data : jsval) : M unit :=
  match ls with
  | [] => mret tt
  | (eventType, cb) :: rest =>
      try_catch (subscription_listener eventType cb source data)
                (fun _ => mret tt);;
      dispatchEvent rest source data
  end.

Definition emitEvent (source : string) (data : jsval) : M unit :=
  modify (emit (Dispatch source data));;
  ls ← gets listeners;
  dispatchEvent ls source data.

Definition subscribe (eventType : string) (cb : callback) : M unit :=
  modify (set_listeners (fun ls => ls ++ [(eventType, cb)])).

(** [isConnected(name)], as the truth value of [ws && ws.readyState === OPEN]
    (for a name that is not registered the method returns the falsy
    [undefined]). *)
Definition isConnected (name : string) : M bool :=
  ws ← gets (fun w => JsMap.get (connections w) name);
  match ws with
  | Some id => r ← ws_readyState id; mret (ready_state_eqb r OPEN)
  | None => mret false
  end.

(** *** The handlers that [connect] installs on the socket *)

Definition ws_onopen (name : string) (h : handlers) : M unit :=
  console_log ("WebSocket " +:+ name +:+ " connected") [];;
  modify (set_reconnectAttempts (fun m => JsMap.set m name 0));;
  startHeartbeat name;;
  call_if_set (onConnect h) [].

Definition parse (raw : string) : M jsval :=
  match JSON_parse raw with
  | Some data => mret data
  | None => throw (JErr "SyntaxError")
  end.

Definition ws_onmessage (name : string) (h : handlers) (raw : string) : M unit :=
  try_catch
    (data ← parse raw;
     ty ← get_property data "type";
     if strict_eq_string ty "pong" then mret tt
     else
       call_if_set (onMessage h) [data];;
       emitEvent name data)
    (fun error =>
       console_error ("Error parsing WebSocket message from " +:+ name +:+ ":") [error]).

Definition close_event (code : Z) (reason : string) : jsval :=
  JObj [("code"%string, JNum code); ("reason"%string, JStr reason)].

Definition ws_onclose (name url : string) (h : handlers) (code : Z)
    (reason : string) : M unit :=
  console_log ("WebSocket " +:+ name +:+ " closed:") [JNum code; JStr reason];;
  stopHeartbeat name;;
  call_if_set (onDisconnect h) [close_event code reason];;
  if negb (code =? 1000) then scheduleReconnect name url h else mret tt.

Definition error_event : jsval := JObj [("type"%string, JStr "error")].

Definition ws_onerror (name : string) (h : handlers) : M unit :=
  console_error ("WebSocket " +:+ name +:+ " error:") [error_event];;
  call_if_set (onError h) [error_event].

(** *** The listeners of [setupErrorHandlers] *)

Fixpoint for_each {A} (l : list A) (f : A -> M unit) : M unit :=
  match l with
  | [] => mret tt
  | x :: rest => f x;; for_each rest f
  end.

(** [pauseHeartbeats], [resumeHeartbeats] and the listener of [beforeunload]
    that [setupErrorHandlers] installs.  [Map.forEach] visits the entries in
    the order of insertion; the loop of [beforeunload] deletes only the entry
    it is visiting, so it visits every entry the registry had at the start. *)
Definition pauseHeartbeats : M unit :=
  timers ← gets heartbeatTimers;
  for_each timers (fun entry => clearInterval (snd entry));;
  modify (set_heartbeatTimers (fun _ => JsMap.empty)).

Definition resumeHeartbeats : M unit :=
  conns ← gets connections;
  for_each conns (fun entry =>
    r ← ws_readyState (snd entry);
    if ready_state_eqb r OPEN then startHeartbeat (fst entry) else mret tt).

Definition on_beforeunload : M unit :=
  conns ← gets connections;
  for_each conns (fun entry => disconnect (fst entry)).

(** ** The event loop

    The callers of the manager and the host take turns; each turn runs to
    completion, and what a turn throws is reported by the host and dropped.
    The host opens only a connecting socket, delivers frames only on an open
    one, closes a socket once, and fires only timers that are pending. *)
Inductive event :=
| Call_connect (name url : string) (h : handlers)
| Call_disconnect (name : string)
| Call_send (name : string) (data : jsval)
| Call_subscribe (eventType : string) (cb : callback)
| Socket_opens (id : nat)
| Socket_message (id : nat) (raw : string)
| Socket_error (id : nat)
| Socket_closes (id : nat) (code : Z) (reason : string)
| Timeout_fires (tid : nat)
| Interval_ticks (tid : nat)
| Page_hidden
| Page_visible
| Page_unloads.

Definition set_readyState (id : nat) (r : ready_state) (w : world) : world :=
  set_sockets (fun ss =>
    match ss !! id with
    | Some s => <[id := with_readyState r s]> ss
    | None => ss
    end) w.

Fixpoint find_timer {J} (ts : list (nat * Z * J)) (tid : nat) : option J :=
  match ts with
  | [] => None
  | (t, _, job) :: rest => if Nat.eqb t tid then Some job else find_timer rest tid
  end.

Definition drop_timer {J} (tid : nat) (ts : list (nat * Z * J)) : list (nat * Z * J) :=
  filter (fun t => negb (Nat.eqb (fst (fst t)) tid)) ts.

Definition deliver (ev : event) (w : world) : world :=
  match ev with
  | Call_connect name url h => exec (connect name url h) w
  | Call_disconnect name => exec (disconnect name) w
  | Call_send name data => exec (send name data) w
  | Call_subscribe eventType cb => exec (subscribe eventType cb) w
  | Socket_opens id =>
      match sockets w !! id with
      | Some s =>
          match readyState s with
          | CONNECTING =>
              exec (ws_onopen (ws_name s) (ws_handlers s)) (set_readyState id OPEN w)
          | _ => w
          end
      | None => w
      end
  | Socket_message id raw =>
      match sockets w !! id with
      | Some s =>
          match readyState s with
          | OPEN => exec (ws_onmessage (ws_name s) (ws_handlers s) raw) w
          | _ => w
          end
      | None => w
      end
  | Socket_error id =>
      match sockets w !! id with
      | Some s =>
          match readyState s with
          | CLOSED => w
          | _ => exec (ws_onerror (ws_name s) (ws_handlers s)) w
          end
      | None => w
      end
  | Socket_closes id code reason =>
      match sockets w !! id with
      | Some s =>
          match readyState s with
          | CLOSED => w
          | _ =>
              exec (ws_onclose (ws_name s) (ws_url s) (ws_handlers s) code reason)
                   (set_readyState id CLOSED w)
          end
      | None => w
      end
  | Timeout_fires tid =>
      match find_timer (timeouts w) tid with
      | Some job => exec (run_timeout job) (set_timeouts (drop_timer tid) w)
      | None => w
      end
  | Interval_ticks tid =>
      match find_timer (intervals w) tid with
      | Some job => exec (heartbeat_tick job) w
      | None => w
      end
  | Page_hidden => exec pauseHeartbeats w
  | Page_visible => exec resumeHeartbeats w
  | Page_unloads => exec on_beforeunload w
  end.

Definition run (evs : list event) (w : world) : world :=
  fold_left (fun w ev => deliver ev w) evs w.

(** The instance once [init] has created the status indicator; the two
    connections that [init] then opens are calls of [connect] like any other. *)
Definition initial : world := exec createStatusIndicator constructor.

Inductive reachable : world -> Prop :=
| reachable_initial : reachable initial
| reachable_deliver w ev : reachable w -> reachable (deliver ev w).


(** * Properties *)

(** ** Running computations *)

Lemma exec_bind {A B} (m : M A) (f : A -> M B) (w : world) :
  exec (m ≫= f) w =
  match result m w with
  | Normal a => exec (f a) (exec m w)
  | Throw _ => exec m w
  end.
Proof.
  unfold exec, result, mbind, M_bind. destruct (m w) as [[a | e] w']; reflexivity.
Qed.

Lemma exec_modify (f : world -> world) (w : world) : exec (modify f) w = f w.
Proof. reflexivity. Qed.

(** Unfolds the monad down to the state transformers. *)
Ltac unfold_monad :=
  unfold exec, result, when, call_if_set, call, console_log, console_error,
    try_catch, throw, gets, modify, mbind, M_bind, mret, M_ret in *.

(** ** [send] (C6) *)

(** The open socket registered under a name, if there is one. *)
Definition open_socket (w : world) (name : string) : option nat :=
  match JsMap.get (connections w) name with
  | Some id =>
      match sockets w !! id with
      | Some s => if ready_state_eqb (readyState s) OPEN then Some id else None
      | None => None
      end
  | None => None
  end.

(** [isConnected] of the class is true for the same names. *)
Lemma isConnected_open_socket (name : string) (w : world) :
  isConnected name w =
  (Normal (match open_socket w name with Some _ => true | None => false end), w).
Proof.
  unfold isConnected, open_socket, ws_readyState. unfold_monad.
  destruct (JsMap.get (connections w) name) as [id |]; [| reflexivity].
  destruct (sockets w !! id) as [s |]; simpl; [| reflexivity].
  destruct (readyState s); reflexivity.
Qed.

(** C6.  [send(name, data)] returns [true] and hands the serialised message
    to the transport once when the name is registered with an open socket;
    in every other case it returns [false] and leaves the world as it was:
    nothing is transmitted and nothing is kept for later. *)
Theorem send_exactly_when_open (name : string) (data : jsval) (w : world) :
  send name data w =
  match open_socket w name with
  | Some id => (Normal true, emit (Transmit id (JSON_stringify data)) w)
  | None => (Normal false, w)
  end.
Proof.
  unfold send, open_socket, ws_send, ws_readyState. unfold_monad.
  destruct (JsMap.get (connections w) name) as [id |]; [| reflexivity].
  destruct (sockets w !! id) as [s |] eqn:Hs; simpl; [| reflexivity].
  destruct (readyState s) eqn:Hr; simpl; rewrite ?Hs, ?Hr; reflexivity.
Qed.

(** ** Inbound frames (C7, C8, C10) *)

Definition parse_error_message (name : string) : string :=
  "Error parsing WebSocket message from " +:+ name +:+ ":".

(** C8.  A frame that does not parse is logged and dropped: the handler
    returns normally, and the world differs from the one before by the one
    line on the console, so the registry and every socket are as they were
    and no close was requested. *)
Theorem parse_failure_logged_and_dropped (name : string) (h : handlers)
    (raw : string) (w : world) :
  JSON_parse raw = None ->
  let w' := exec (ws_onmessage name h raw) w in
  result (ws_onmessage name h raw) w = Normal tt /\
  w' = emit (Console_error (parse_error_message name) [JErr "SyntaxError"]) w /\
  connections w' = connections w /\
  sockets w' = sockets w /\
  reconnectAttempts w' = reconnectAttempts w /\
  timeouts w' = timeouts w.
Proof.
  intros Hparse. unfold ws_onmessage, parse. rewrite Hparse.
  unfold_monad. simpl. repeat split.
Qed.

(** The decoded message is a pong: [data.type === 'pong']. *)
Definition is_pong (data : jsval) : bool :=
  match property data "type" with
  | Normal ty => strict_eq_string ty "pong"
  | Throw _ => false
  end.

(** C10.  When the connection's own [onMessage] throws on a decoded message
    that is not a pong, the catch block of the parse failures takes the
    error: the handler of the socket returns normally, the console gets the
    parse-error line, and [emitEvent] is not reached, so no [Dispatch] and no
    call of a subscriber follows the call of [onMessage]. *)
Theorem throwing_onMessage_stops_broadcast (name : string) (h : handlers)
    (cb : callback) (raw : string) (data ty e : jsval) (w : world) :
  JSON_parse raw = Some data ->
  property data "type" = Normal ty ->
  strict_eq_string ty "pong" = false ->
  onMessage h = Some cb ->
  cb_raises cb [data] = Some e ->
  ws_onmessage name h raw w =
  (Normal tt,
   emit (Console_error (parse_error_message name) [e])
     (emit (Invoke (cb_id cb) [data]) w)).
Proof.
  intros Hparse Hty Hpong Hcb Hraise.
  unfold ws_onmessage, parse, get_property. rewrite Hparse, Hcb.
  unfold_monad. rewrite Hty, Hpong, Hraise. reflexivity.
Qed.

(** ** Frame reasoning

    [keeps proj m]: running [m] leaves the part [proj] of the world alone,
    whether [m] returns or throws. *)
Section Keeps.
Context {B : Type} (proj : world -> B).

Definition keeps {A} (m : M A) : Prop := forall w, proj (exec m w) = proj w.

Lemma keeps_ret {A} (a : A) : keeps (mret a).
Proof. intros w. reflexivity. Qed.

Lemma keeps_gets {A} (f : world -> A) : keeps (gets f).
Proof. intros w. reflexivity. Qed.

Lemma keeps_throw {A} (e : jsval) : keeps (@throw A e).
Proof. intros w. reflexivity. Qed.

Lemma keeps_bind {A C} (m : M A) (f : A -> M C) :
  keeps m -> (forall a, keeps (f a)) -> keeps (m ≫= f).
Proof.
  intros Hm Hf w. rewrite exec_bind.
  destruct (result m w); [rewrite Hf |]; apply Hm.
Qed.

Lemma keeps_try_catch {A} (body : M A) (handler : jsval -> M A) :
  keeps body -> (forall e, keeps (handler e)) -> keeps (try_catch body handler).
Proof.
  intros Hb Hh w. specialize (Hb w). unfold exec, try_catch in *.
  destruct (body w) as [[a | e] w']; simpl in *; [assumption |].
  rewrite <- Hb. apply Hh.
Qed.

Lemma keeps_when (b : bool) (m : M unit) : keeps m -> keeps (when b m).
Proof. intros Hm. destruct b; [exact Hm | apply keeps_ret]. Qed.

Lemma keeps_for_each {A} (l : list A) (f : A -> M unit) :
  (forall x, keeps (f x)) -> keeps (for_each l f).
Proof.
  intros Hf. induction l as [| x l IH]; simpl.
  - apply keeps_ret.
  - apply keeps_bind; [apply Hf | intros _; exact IH].
Qed.
End Keeps.

Ltac keeps_step :=
  first
    [ solve [intros ?; reflexivity]
    | lazymatch goal with
      | |- keeps _ (mbind _ _) => apply keeps_bind; [| intros ?]
      | |- keeps _ (try_catch _ _) => apply keeps_try_catch; [| intros ?]
      | |- keeps _ (when _ _) => apply keeps_when
      | |- keeps _ (for_each _ _) => apply keeps_for_each; intros ?
      | |- keeps _ (call_if_set ?slot _) => destruct slot; unfold call_if_set
      | |- keeps _ (match ?x with _ => _ end) => destruct x
      end
    | solve [auto with frame] ].

Ltac solve_keeps := repeat keeps_step.

Create HintDb frame.

(** The registry and the sockets it names. *)
Definition registry (w : world) : list WebSocket * JsMap.t nat :=
  (sockets w, connections w).

Lemma stopHeartbeat_keeps_registry name : keeps registry (stopHeartbeat name).
Proof. unfold stopHeartbeat. solve_keeps. Qed.
Lemma stopHeartbeat_keeps_listeners name : keeps listeners (stopHeartbeat name).
Proof. unfold stopHeartbeat. solve_keeps. Qed.
Lemma stopHeartbeat_keeps_timeouts name :
  keeps (fun w => (timeouts w, next_timer w)) (stopHeartbeat name).
Proof. unfold stopHeartbeat. solve_keeps. Qed.
Lemma stopHeartbeat_keeps_backoff name :
  keeps (fun w => (reconnectAttempts w, maxReconnectAttempts w, reconnectDelay w,
                   statusIndicator w))
        (stopHeartbeat name).
Proof. unfold stopHeartbeat. solve_keeps. Qed.
#[local] Hint Resolve stopHeartbeat_keeps_registry stopHeartbeat_keeps_listeners
  stopHeartbeat_keeps_timeouts stopHeartbeat_keeps_backoff : frame.

Lemma startHeartbeat_keeps_registry name : keeps registry (startHeartbeat name).
Proof. unfold startHeartbeat. solve_keeps. Qed.
Lemma startHeartbeat_keeps_listeners name : keeps listeners (startHeartbeat name).
Proof. unfold startHeartbeat. solve_keeps. Qed.
#[local] Hint Resolve startHeartbeat_keeps_registry startHeartbeat_keeps_listeners : frame.

Lemma updateStatus_keeps_registry status message :
  keeps registry (updateStatus status message).
Proof. unfold updateStatus. solve_keeps. Qed.
Lemma updateStatus_keeps_listeners status message :
  keeps listeners (updateStatus status message).
Proof. unfold updateStatus. solve_keeps. Qed.
#[local] Hint Resolve updateStatus_keeps_registry updateStatus_keeps_listeners : frame.

Lemma ws_send_keeps_registry id frame : keeps registry (ws_send id frame).
Proof. unfold ws_send. solve_keeps. Qed.
Lemma ws_send_keeps_listeners id frame : keeps listeners (ws_send id frame).
Proof. unfold ws_send. solve_keeps. Qed.
#[local] Hint Resolve ws_send_keeps_registry ws_send_keeps_listeners : frame.

Lemma dispatchEvent_keeps_registry ls source data :
  keeps registry (dispatchEvent ls source data).
Proof.
  induction ls as [| [ty cb] ls IH]; simpl; [apply keeps_ret |].
  unfold subscription_listener. solve_keeps.
Qed.
Lemma dispatchEvent_keeps_listeners ls source data :
  keeps listeners (dispatchEvent ls source data).
Proof.
  induction ls as [| [ty cb] ls IH]; simpl; [apply keeps_ret |].
  unfold subscription_listener. solve_keeps.
Qed.
#[local] Hint Resolve dispatchEvent_keeps_registry dispatchEvent_keeps_listeners : frame.

Lemma scheduleReconnect_keeps_registry name url h :
  keeps registry (scheduleReconnect name url h).
Proof. unfold scheduleReconnect. solve_keeps. Qed.
Lemma scheduleReconnect_keeps_listeners name url h :
  keeps listeners (scheduleReconnect name url h).
Proof. unfold scheduleReconnect. solve_keeps. Qed.
#[local] Hint Resolve scheduleReconnect_keeps_registry scheduleReconnect_keeps_listeners : frame.

Lemma ws_onopen_keeps_registry name h : keeps registry (ws_onopen name h).
Proof. unfold ws_onopen. solve_keeps. Qed.
Lemma ws_onopen_keeps_listeners name h : keeps listeners (ws_onopen name h).
Proof. unfold ws_onopen. solve_keeps. Qed.

Lemma ws_onmessage_keeps_registry name h raw : keeps registry (ws_onmessage name h raw).
Proof. unfold ws_onmessage, emitEvent, parse. solve_keeps. Qed.
Lemma ws_onmessage_keeps_listeners name h raw : keeps listeners (ws_onmessage name h raw).
Proof. unfold ws_onmessage, emitEvent, parse. solve_keeps. Qed.

Lemma ws_onclose_keeps_registry name url h code reason :
  keeps registry (ws_onclose name url h code reason).
Proof. unfold ws_onclose. solve_keeps. Qed.
Lemma ws_onclose_keeps_listeners name url h code reason :
  keeps listeners (ws_onclose name url h code reason).
Proof. unfold ws_onclose. solve_keeps. Qed.

Lemma ws_onerror_keeps_registry name h : keeps registry (ws_onerror name h).
Proof. unfold ws_onerror. solve_keeps. Qed.
Lemma ws_onerror_keeps_listeners name h : keeps listeners (ws_onerror name h).
Proof. unfold ws_onerror. solve_keeps. Qed.

Lemma heartbeat_tick_keeps_registry job : keeps registry (heartbeat_tick job).
Proof. unfold heartbeat_tick. solve_keeps. Qed.
Lemma heartbeat_tick_keeps_listeners job : keeps listeners (heartbeat_tick job).
Proof. unfold heartbeat_tick. solve_keeps. Qed.

Lemma send_keeps_registry name data : keeps registry (send name data).
Proof. unfold send. solve_keeps. Qed.
Lemma send_keeps_listeners name data : keeps listeners (send name data).
Proof. unfold send. solve_keeps. Qed.

Lemma pauseHeartbeats_keeps_registry : keeps registry pauseHeartbeats.
Proof. unfold pauseHeartbeats. solve_keeps. Qed.
Lemma pauseHeartbeats_keeps_listeners : keeps listeners pauseHeartbeats.
Proof. unfold pauseHeartbeats. solve_keeps. Qed.

Lemma resumeHeartbeats_keeps_registry : keeps registry resumeHeartbeats.
Proof. unfold resumeHeartbeats. solve_keeps. Qed.
Lemma resumeHeartbeats_keeps_listeners : keeps listeners resumeHeartbeats.
Proof. unfold resumeHeartbeats. solve_keeps. Qed.

Lemma disconnect_keeps_listeners name : keeps listeners (disconnect name).
Proof. unfold disconnect. solve_keeps. Qed.
#[local] Hint Resolve disconnect_keeps_listeners : frame.

Lemma connect_keeps_listeners name url h : keeps listeners (connect name url h).
Proof.
  unfold connect, new_WebSocket. solve_keeps.
  intros w. unfold exec. destruct (WebSocket_throws url); reflexivity.
Qed.
#[local] Hint Resolve connect_keeps_listeners : frame.

Lemma run_timeout_keeps_listeners job : keeps listeners (run_timeout job).
Proof. unfold run_timeout. solve_keeps. Qed.

Lemma on_beforeunload_keeps_listeners : keeps listeners on_beforeunload.
Proof. unfold on_beforeunload. solve_keeps. Qed.

(** ** Subscriptions (C9) *)

Definition emit_all (es : list effect) (w : world) : world :=
  fold_left (fun w e => emit e w) es w.

(** The declared type of a decoded message is the string [ty]. *)
Definition has_type (data : jsval) (ty : string) : bool :=
  match property data "type" with
  | Normal v => strict_eq_string v ty
  | Throw _ => false
  end.

Definition payload_of (data : jsval) : jsval :=
  match property data "payload" with
  | Normal v => v
  | Throw _ => JUndefined
  end.

(** The calls a broadcast owes to a list of subscriptions: one call, with the
    payload and the source, for each subscription of the message's type, in
    the order of the list. *)
Definition subscription_calls (subs : list (string * callback)) (source : string)
    (data : jsval) : list effect :=
  map (fun sub => Invoke (cb_id (snd sub)) [payload_of data; JStr source])
      (filter (fun sub => has_type data (fst sub) = true) subs).

(** The subscriptions made by a sequence of events, in order. *)
Definition subscriptions_of (evs : list event) : list (string * callback) :=
  omap (fun ev => match ev with
                  | Call_subscribe eventType cb => Some (eventType, cb)
                  | _ => None
                  end) evs.

Lemma listener_runs (eventType : string) (cb : callback) (source : string)
    (data : jsval) (w : world) :
  try_catch (subscription_listener eventType cb source data) (fun _ => mret tt) w =
  (Normal tt,
   if has_type data eventType
   then emit (Invoke (cb_id cb) [payload_of data; JStr source]) w
   else w).
Proof.
  unfold subscription_listener, get_property, has_type, payload_of.
  unfold_monad.
  destruct data; simpl; try reflexivity;
    destruct (strict_eq_string _ eventType); simpl; try reflexivity;
    destruct (cb_raises cb _); reflexivity.
Qed.

Lemma dispatchEvent_calls (ls : list (string * callback)) (source : string)
    (data : jsval) (w : world) :
  dispatchEvent ls source data w =
  (Normal tt, emit_all (subscription_calls ls source data) w).
Proof.
  revert w. induction ls as [| [ty cb] ls IH]; intros w; [reflexivity |].
  cbn [dispatchEvent]. unfold mbind, M_bind at 1.
  rewrite listener_runs, IH. unfold subscription_calls.
  rewrite filter_cons. cbn [fst].
  destruct (has_type data ty); simpl; reflexivity.
Qed.

Lemma deliver_listeners (ev : event) (w : world) :
  listeners (deliver ev w) = listeners w ++ subscriptions_of [ev].
Proof.
  assert (Hkeep : forall A (m : M A), keeps listeners m ->
            listeners (exec m w) = listeners w ++ []).
  { intros A m Hm. rewrite app_nil_r. apply Hm. }
  destruct ev; simpl; try reflexivity;
    try (apply Hkeep; auto using send_keeps_listeners, pauseHeartbeats_keeps_listeners,
           resumeHeartbeats_keeps_listeners, on_beforeunload_keeps_listeners with frame);
    try (destruct (sockets w !! id) as [s |]; [| symmetry; apply app_nil_r];
         destruct (readyState s); try (symmetry; apply app_nil_r));
    rewrite ?app_nil_r.
  - apply (ws_onopen_keeps_listeners _ _ (set_readyState id OPEN w)).
  - apply ws_onmessage_keeps_listeners.
  - apply ws_onerror_keeps_listeners.
  - apply ws_onerror_keeps_listeners.
  - apply ws_onerror_keeps_listeners.
  - apply (ws_onclose_keeps_listeners _ _ _ _ _ (set_readyState id CLOSED w)).
  - apply (ws_onclose_keeps_listeners _ _ _ _ _ (set_readyState id CLOSED w)).
  - apply (ws_onclose_keeps_listeners _ _ _ _ _ (set_readyState id CLOSED w)).
  - destruct (find_timer (timeouts w) tid) as [job |]; [| reflexivity].
    apply (run_timeout_keeps_listeners _ (set_timeouts (drop_timer tid) w)).
  - destruct (find_timer (intervals w) tid) as [job |]; [| reflexivity].
    apply heartbeat_tick_keeps_listeners.
Qed.

Lemma run_listeners (evs : list event) (w : world) :
  listeners (run evs w) = listeners w ++ subscriptions_of evs.
Proof.
  revert w. induction evs as [| ev evs IH]; intros w; simpl.
  - symmetry. apply app_nil_r.
  - unfold run in IH. rewrite IH, deliver_listeners.
    rewrite <- app_assoc. f_equal.
    unfold subscriptions_of. simpl. destruct ev; reflexivity.
Qed.

(** After any sequence of events, a call of [emitEvent] reaches the callbacks
    registered by [subscribe] as follows: each subscription whose type is the
    declared type of the message is called once, with the payload and the
    source, in the order of registration; no other subscription is called. *)
Lemma emitEvent_calls_subscribers (evs : list event)
    (source : string) (data : jsval) :
  emitEvent source data (run evs initial) =
  (Normal tt,
   emit_all (Dispatch source data
             :: subscription_calls (subscriptions_of evs) source data)
            (run evs initial)).
Proof.
  unfold emitEvent. unfold_monad.
  rewrite dispatchEvent_calls. cbn [listeners emit].
  rewrite run_listeners. reflexivity.
Qed.

(** A frame that decodes to a message other than a pong is broadcast once,
    after the connection's own [onMessage], when that handler is missing or
    returns. *)
Definition onMessage_call (h : handlers) (data : jsval) : list effect :=
  match onMessage h with
  | Some cb => [Invoke (cb_id cb) [data]]
  | None => []
  end.

Definition onMessage_returns (h : handlers) (data : jsval) : Prop :=
  match onMessage h with
  | Some cb => cb_raises cb [data] = None
  | None => True
  end.

Lemma frame_is_broadcast (name : string) (h : handlers) (raw : string)
    (data ty : jsval) (w : world) :
  JSON_parse raw = Some data ->
  property data "type" = Normal ty ->
  strict_eq_string ty "pong" = false ->
  onMessage_returns h data ->
  ws_onmessage name h raw w =
  (Normal tt,
   emit_all (onMessage_call h data
             ++ Dispatch name data :: subscription_calls (listeners w) name data) w).
Proof.
  intros Hparse Hty Hpong Hret.
  unfold ws_onmessage, parse, get_property, emitEvent, onMessage_call,
    onMessage_returns in *.
  rewrite Hparse. unfold_monad. rewrite Hty, Hpong.
  destruct (onMessage h) as [cb |]; [rewrite Hret |];
    rewrite dispatchEvent_calls; reflexivity.
Qed.

Lemma initial_listeners : listeners initial = [].
Proof. reflexivity. Qed.

(** C9, as the code has it.  After any sequence of events, let an open
    transport deliver a frame that decodes to a message with a declared type.
    What follows is decided by the type and by the connection's own
    [onMessage], which runs first:
    - a message of type [pong] is consumed: nothing is called, not even a
      subscription of the type [pong];
    - when [onMessage] throws, the error is logged as a parse error and the
      broadcast is not reached: no subscription is called;
    - otherwise ([onMessage] is absent or returns) the message is broadcast,
      and each subscription made so far whose type is the declared type of
      the message is called once, with the payload and the name of the
      connection, in the order of registration; no other subscription is
      called. *)
Theorem decoded_message_reaches_subscribers (evs : list event) (id : nat)
    (s : WebSocket) (raw : string) (data ty : jsval) :
  let w := run evs initial in
  sockets w !! id = Some s ->
  readyState s = OPEN ->
  JSON_parse raw = Some data ->
  property data "type" = Normal ty ->
  deliver (Socket_message id raw) w =
  let name := ws_name s in
  let broadcast :=
    Dispatch name data :: subscription_calls (subscriptions_of evs) name data in
  if strict_eq_string ty "pong" then w
  else
    match onMessage (ws_handlers s) with
    | Some cb =>
        match cb_raises cb [data] with
        | Some e =>
            emit_all [Invoke (cb_id cb) [data];
                      Console_error (parse_error_message name) [e]] w
        | None => emit_all (Invoke (cb_id cb) [data] :: broadcast) w
        end
    | None => emit_all broadcast w
    end.
Proof.
  intros w Hs Hopen Hparse Hty. cbn [deliver]. rewrite Hs, Hopen. cbv zeta.
  assert (Hls : listeners w = subscriptions_of evs).
  { unfold w. rewrite run_listeners, initial_listeners. reflexivity. }
  destruct (strict_eq_string ty "pong") eqn:Hpong.
  - unfold ws_onmessage, parse, get_property. rewrite Hparse.
    unfold_monad. rewrite Hty, Hpong. reflexivity.
  - destruct (onMessage (ws_handlers s)) as [cb |] eqn:Hcb.
    + destruct (cb_raises cb [data]) as [e |] eqn:Hraise.
      * unfold ws_onmessage, parse, get_property. rewrite Hparse, Hcb.
        unfold_monad. rewrite Hty, Hpong, Hraise. reflexivity.
      * unfold exec.
        rewrite (frame_is_broadcast (ws_name s) (ws_handlers s) raw data ty w
                   Hparse Hty Hpong).
        -- unfold onMessage_call. rewrite Hcb, Hls. reflexivity.
        -- unfold onMessage_returns. rewrite Hcb. exact Hraise.
    + unfold exec.
      rewrite (frame_is_broadcast (ws_name s) (ws_handlers s) raw data ty w
                 Hparse Hty Hpong).
      * unfold onMessage_call. rewrite Hcb, Hls. reflexivity.
      * unfold onMessage_returns. rewrite Hcb. exact I.
Qed.

(** ** Closures and the reconnect path (C5) *)

Definition failed_status (w : world) : option indicator :=
  match statusIndicator w with
  | Some _ => Some (Indicator "disconnected" "Connection Failed" false)
  | None => None
  end.

(** What [scheduleReconnect(name, url, handlers)] does to a world [w]:
    below the maximum it adds one timeout, whose delay is computed from the
    counter of [name]; at the maximum it adds none and reports the failure. *)
Definition reconnect_path_taken (name url : string) (h : handlers)
    (w w' : world) : Prop :=
  let a := attempts_or_zero w name in
  if a >=? maxReconnectAttempts w
  then timeouts w' = timeouts w /\ statusIndicator w' = failed_status w
  else timeouts w' =
       timeouts w ++ [(next_timer w, reconnectDelay w * 2 ^ a, Reconnect name url h a)].

Definition onDisconnect_returns (h : handlers) (code : Z) (reason : string) : Prop :=
  match onDisconnect h with
  | Some cb => cb_raises cb [close_event code reason] = None
  | None => True
  end.

Lemma scheduleReconnect_path (name url : string) (h : handlers) (w : world) :
  reconnect_path_taken name url h w (exec (scheduleReconnect name url h) w).
Proof.
  unfold reconnect_path_taken, scheduleReconnect, updateStatus, setTimeout,
    failed_status.
  unfold_monad. simpl.
  destruct (attempts_or_zero w name >=? maxReconnectAttempts w); simpl;
    destruct (statusIndicator w) eqn:Hind; simpl; rewrite ?Hind; auto.
Qed.

(** The statements of [ws.onclose] before the test of the close code. *)
Definition close_prologue (name : string) (h : handlers) (code : Z)
    (reason : string) : M unit :=
  console_log ("WebSocket " +:+ name +:+ " closed:") [JNum code; JStr reason];;
  stopHeartbeat name;;
  call_if_set (onDisconnect h) [close_event code reason].

Definition backoff_state (w : world) :=
  (reconnectAttempts w, maxReconnectAttempts w, reconnectDelay w,
   statusIndicator w, timeouts w, next_timer w).

Lemma close_prologue_keeps_backoff name h code reason :
  keeps backoff_state (close_prologue name h code reason).
Proof.
  unfold close_prologue. solve_keeps.
  unfold stopHeartbeat. solve_keeps.
Qed.

Lemma set_readyState_backoff id r w :
  backoff_state (set_readyState id r w) = backoff_state w.
Proof. reflexivity. Qed.

Lemma reconnect_path_taken_ext name url h w0 w1 w' :
  backoff_state w1 = backoff_state w0 ->
  reconnect_path_taken name url h w1 w' ->
  reconnect_path_taken name url h w0 w'.
Proof.
  unfold backoff_state, reconnect_path_taken, attempts_or_zero, failed_status.
  intros Heq. injection Heq as -> -> -> -> -> ->. trivial.
Qed.

Lemma ws_onclose_split name url h code reason w :
  exec (ws_onclose name url h code reason) w =
  match result (close_prologue name h code reason) w with
  | Normal _ =>
      if code =? 1000 then exec (close_prologue name h code reason) w
      else exec (scheduleReconnect name url h)
                (exec (close_prologue name h code reason) w)
  | Throw _ => exec (close_prologue name h code reason) w
  end.
Proof.
  unfold ws_onclose, close_prologue. unfold_monad.
  destruct (stopHeartbeat name _) as [[[] | e] w1]; [| reflexivity].
  destruct (onDisconnect h) as [cb |]; simpl.
  - destruct (cb_raises cb _); [reflexivity |].
    destruct (code =? 1000); reflexivity.
  - destruct (code =? 1000); reflexivity.
Qed.

Lemma stopHeartbeat_returns name w : result (stopHeartbeat name) w = Normal tt.
Proof.
  unfold stopHeartbeat, clearInterval. unfold_monad.
  destruct (JsMap.get (heartbeatTimers w) name) as [t |]; [| reflexivity].
  destruct (t =? 0)%nat; reflexivity.
Qed.

Lemma close_prologue_returns name h code reason w :
  onDisconnect_returns h code reason ->
  result (close_prologue name h code reason) w = Normal tt.
Proof.
  unfold onDisconnect_returns, close_prologue. intros Hret.
  pose proof (stopHeartbeat_returns name
                (emit (Console_log ("WebSocket " +:+ name +:+ " closed:")
                         [JNum code; JStr reason]) w)) as Hstop.
  unfold_monad.
  destruct (stopHeartbeat name _) as [[[] | e] w1]; [| discriminate].
  destruct (onDisconnect h) as [cb |]; simpl; [rewrite Hret |]; reflexivity.
Qed.

Lemma closure_outcome (w : world) (id : nat) (s : WebSocket)
    (code : Z) (reason : string) :
  sockets w !! id = Some s ->
  readyState s <> CLOSED ->
  let w' := deliver (Socket_closes id code reason) w in
  (code = 1000 -> timeouts w' = timeouts w /\ next_timer w' = next_timer w) /\
  (code <> 1000 ->
   onDisconnect_returns (ws_handlers s) code reason ->
   reconnect_path_taken (ws_name s) (ws_url s) (ws_handlers s) w w').
Proof.
  intros Hs Hopen.
  assert (Hdel : deliver (Socket_closes id code reason) w =
                 exec (ws_onclose (ws_name s) (ws_url s) (ws_handlers s) code reason)
                      (set_readyState id CLOSED w)).
  { simpl. rewrite Hs. destruct (readyState s); congruence. }
  cbv zeta. rewrite Hdel, ws_onclose_split.
  pose proof (close_prologue_keeps_backoff (ws_name s) (ws_handlers s) code reason
                (set_readyState id CLOSED w)) as Hkeep.
  rewrite set_readyState_backoff in Hkeep.
  split.
  - intros ->. simpl.
    assert (timeouts (exec (close_prologue (ws_name s) (ws_handlers s) 1000 reason)
                        (set_readyState id CLOSED w)) = timeouts w /\
            next_timer (exec (close_prologue (ws_name s) (ws_handlers s) 1000 reason)
                          (set_readyState id CLOSED w)) = next_timer w) as [Ht Hn].
    { unfold backoff_state in Hkeep. injection Hkeep as _ _ _ _ Ht Hn. auto. }
    destruct (result _ _); auto.
  - intros Hcode Hret.
    rewrite close_prologue_returns by exact Hret.
    apply Z.eqb_neq in Hcode. rewrite Hcode.
    eapply reconnect_path_taken_ext; [exact Hkeep |].
    apply scheduleReconnect_path.
Qed.

(** C5, as the code has it.  When the host closes a socket with code 1000,
    no timeout is added.  With any other code the reconnect path is taken,
    provided the connection's [onDisconnect] is missing or returns: the
    handler runs before the test of the close code, and what it throws ends
    [ws.onclose]. *)
Theorem close_code_decides_reconnect (w : world) (id : nat) (s : WebSocket)
    (code : Z) (reason : string) :
  sockets w !! id = Some s ->
  readyState s <> CLOSED ->
  let w' := deliver (Socket_closes id code reason) w in
  (code = 1000 -> timeouts w' = timeouts w /\ next_timer w' = next_timer w) /\
  (code <> 1000 ->
   onDisconnect_returns (ws_handlers s) code reason ->
   reconnect_path_taken (ws_name s) (ws_url s) (ws_handlers s) w w').
Proof. exact (closure_outcome w id s code reason). Qed.

(** ** One live transport per name (C4) *)

Lemma get_set_eq {V} (m : JsMap.t V) (k : string) (v : V) :
  JsMap.get (JsMap.set m k v) k = Some v.
Proof.
  induction m as [| [k0 v0] m IH]; simpl.
  - rewrite String.eqb_refl. reflexivity.
  - destruct (String.eqb k0 k) eqn:E; simpl; rewrite E; auto.
Qed.

Lemma get_set_ne {V} (m : JsMap.t V) (k k' : string) (v : V) :
  k <> k' -> JsMap.get (JsMap.set m k v) k' = JsMap.get m k'.
Proof.
  intros Hne. induction m as [| [k0 v0] m IH]; simpl.
  - destruct (String.eqb_spec k k'); congruence.
  - destruct (String.eqb_spec k0 k) as [-> | Hk]; simpl.
    + destruct (String.eqb_spec k k'); congruence.
    + destruct (String.eqb_spec k0 k'); auto.
Qed.

Lemma get_delete_eq {V} (m : JsMap.t V) (k : string) :
  JsMap.get (JsMap.delete m k) k = None.
Proof.
  induction m as [| [k0 v0] m IH]; simpl; [reflexivity |].
  destruct (String.eqb k0 k) eqn:E; simpl; rewrite ?E; auto.
Qed.

Lemma get_delete_ne {V} (m : JsMap.t V) (k k' : string) :
  k <> k' -> JsMap.get (JsMap.delete m k) k' = JsMap.get m k'.
Proof.
  intros Hne. induction m as [| [k0 v0] m IH]; simpl; [reflexivity |].
  destruct (String.eqb_spec k0 k) as [-> | Hk]; simpl.
  - destruct (String.eqb_spec k k'); congruence.
  - destruct (String.eqb_spec k0 k'); auto.
Qed.

(** A transport is live from its creation until its close is requested or
    the host closes it. *)
Definition is_live (s : WebSocket) : bool :=
  match readyState s with
  | CONNECTING | OPEN => true
  | CLOSING | CLOSED => false
  end.

(** Every live transport is the one registered under its name. *)
Definition live_registered (ss : list WebSocket) (conns : JsMap.t nat) : Prop :=
  forall id s, ss !! id = Some s -> is_live s = true ->
               JsMap.get conns (ws_name s) = Some id.

Definition none_live (name : string) (ss : list WebSocket) : Prop :=
  forall id s, ss !! id = Some s -> is_live s = true -> ws_name s <> name.

Lemma begin_closing_live (id id' : nat) (ss : list WebSocket) (s' : WebSocket) :
  begin_closing id ss !! id' = Some s' -> is_live s' = true ->
  id' <> id /\ ss !! id' = Some s'.
Proof.
  unfold begin_closing. intros Hlook Hlive.
  destruct (decide (id' = id)) as [-> | Hne].
  - exfalso. destruct (ss !! id) as [s |] eqn:Hs.
    + assert (Hlt : (id < length ss)%nat) by (eapply lookup_lt_Some; eassumption).
      unfold is_live in Hlive.
      destruct (readyState s) eqn:Hr;
        try (rewrite list_lookup_insert_eq in Hlook by exact Hlt;
             injection Hlook as <-; discriminate);
        rewrite Hs in Hlook; injection Hlook as <-; rewrite Hr in Hlive;
        discriminate.
    + rewrite Hs in Hlook. discriminate.
  - split; [exact Hne |].
    destruct (ss !! id) as [s |]; [| exact Hlook].
    destruct (readyState s); try exact Hlook;
      rewrite list_lookup_insert_ne in Hlook by congruence; exact Hlook.
Qed.

Lemma disconnect_returns name w : result (disconnect name) w = Normal tt.
Proof.
  unfold disconnect, ws_close.
  pose proof (stopHeartbeat_returns name w) as Hstop.
  unfold_monad.
  destruct (JsMap.get (connections w) name) as [id |]; [| reflexivity].
  destruct (stopHeartbeat name w) as [[[] | e] w1]; [reflexivity | discriminate].
Qed.

Lemma disconnect_registry name w :
  registry (exec (disconnect name) w) =
  match JsMap.get (connections w) name with
  | Some id => (begin_closing id (sockets w), JsMap.delete (connections w) name)
  | None => registry w
  end.
Proof.
  unfold disconnect, ws_close.
  pose proof (stopHeartbeat_returns name w) as Hstop.
  pose proof (stopHeartbeat_keeps_registry name w) as Hkeep.
  unfold_monad.
  destruct (JsMap.get (connections w) name) as [id |]; [| reflexivity].
  destruct (stopHeartbeat name w) as [[[] | e] w1]; [| discriminate].
  simpl in *. unfold registry in *. simpl.
  injection Hkeep as -> ->. reflexivity.
Qed.

Lemma disconnect_invariant name w :
  live_registered (sockets w) (connections w) ->
  live_registered (sockets (exec (disconnect name) w))
                  (connections (exec (disconnect name) w)) /\
  none_live name (sockets (exec (disconnect name) w)).
Proof.
  intros Hinv. pose proof (disconnect_registry name w) as Hreg.
  unfold registry in Hreg.
  destruct (JsMap.get (connections w) name) as [id |] eqn:Hget;
    injection Hreg as -> ->.
  - split.
    + intros id' s' Hlook Hlive.
      apply begin_closing_live in Hlook as [Hne Hlook]; [| exact Hlive].
      pose proof (Hinv id' s' Hlook Hlive) as Hreg.
      rewrite get_delete_ne; [exact Hreg |].
      intros Heq. congruence.
    + intros id' s' Hlook Hlive Hname.
      apply begin_closing_live in Hlook as [Hne Hlook]; [| exact Hlive].
      pose proof (Hinv id' s' Hlook Hlive) as Hreg. congruence.
  - split; [exact Hinv |].
    intros id' s' Hlook Hlive Hname.
    pose proof (Hinv id' s' Hlook Hlive) as Hreg. congruence.
Qed.

Lemma updateStatus_returns status message w :
  result (updateStatus status message) w = Normal tt.
Proof.
  unfold updateStatus, setTimeout. unfold_monad.
  destruct (statusIndicator w); [| reflexivity]. simpl.
  destruct (String.eqb status "connected"); reflexivity.
Qed.

(** The registry after [connect]: the registered transport of the name, if
    there was one, has been asked to close, and the new transport, if the
    host made one, is registered in its place. *)
Lemma connect_registry name url h w :
  let w1 := if JsMap.has (connections w) name then exec (disconnect name) w else w in
  registry (exec (connect name url h) w) =
  match WebSocket_throws url with
  | Some _ => (sockets w1, JsMap.delete (connections w) name)
  | None => (sockets w1 ++ [Socket url CONNECTING name h],
             JsMap.set (JsMap.delete (connections w) name) name (length (sockets w1)))
  end.
Proof.
  cbv zeta. unfold connect.
  rewrite exec_bind. cbn [result gets fst exec snd].
  rewrite exec_bind.
  assert (Hwhen : result (when (JsMap.has (connections w) name) (disconnect name)) w
                  = Normal tt).
  { destruct (JsMap.has (connections w) name); [apply disconnect_returns | reflexivity]. }
  rewrite Hwhen.
  assert (Hw1 : exec (when (JsMap.has (connections w) name) (disconnect name)) w =
                if JsMap.has (connections w) name then exec (disconnect name) w else w).
  { destruct (JsMap.has (connections w) name); reflexivity. }
  rewrite Hw1. clear Hw1 Hwhen.
  assert (Hconn : connections (if JsMap.has (connections w) name
                               then exec (disconnect name) w else w)
                  = JsMap.delete (connections w) name).
  { pose proof (disconnect_registry name w) as Hreg. unfold registry in Hreg.
    unfold JsMap.has.
    destruct (JsMap.get (connections w) name) as [id |] eqn:Hget.
    - injection Hreg as _ ->. reflexivity.
    - clear Hreg. induction (connections w) as [| [k v] m IH]; [reflexivity |].
      simpl in *. destruct (String.eqb k name); [discriminate |].
      f_equal. apply IH. exact Hget. }
  rewrite <- Hconn.
  set (w1 := if JsMap.has (connections w) name then exec (disconnect name) w else w).
  clearbody w1. clear Hconn.
  rewrite exec_bind, updateStatus_returns.
  pose proof (updateStatus_keeps_registry "connecting" "Connecting..." w1) as Hkeep.
  set (w2 := exec (updateStatus "connecting" "Connecting...") w1) in *.
  clearbody w2. unfold registry in Hkeep. injection Hkeep as <- <-.
  destruct (WebSocket_throws url) as [e |] eqn:Hctor.
  - assert (Hh : keeps registry
                   (console_error ("Failed to create WebSocket " +:+ name +:+ ":") [e];;
                    updateStatus "disconnected" "Connection Failed";;
                    call_if_set (onError h) [e])) by solve_keeps.
    specialize (Hh w2). unfold new_WebSocket, try_catch, exec in *.
    unfold mbind at 1, M_bind at 1. rewrite Hctor. exact Hh.
  - unfold new_WebSocket, try_catch, exec. unfold_monad. rewrite Hctor. reflexivity.
Qed.

Definition invariant (w : world) : Prop :=
  live_registered (sockets w) (connections w).

Lemma invariant_registry w w' : registry w' = registry w -> invariant w -> invariant w'.
Proof. unfold registry, invariant. intros Heq. injection Heq as -> ->. trivial. Qed.

Lemma keeps_registry_invariant {A} (m : M A) w :
  keeps registry m -> invariant w -> invariant (exec m w).
Proof. intros Hm. apply invariant_registry, Hm. Qed.

Lemma teardown_invariant name w :
  invariant w ->
  let w1 := if JsMap.has (connections w) name then exec (disconnect name) w else w in
  live_registered (sockets w1) (JsMap.delete (connections w) name) /\
  none_live name (sockets w1).
Proof.
  intros Hinv. cbv zeta. unfold JsMap.has.
  pose proof (disconnect_invariant name w Hinv) as [Hinv1 Hnone].
  pose proof (disconnect_registry name w) as Hreg. unfold registry in Hreg.
  destruct (JsMap.get (connections w) name) as [id |] eqn:Hget.
  - injection Hreg as Hs Hc. rewrite Hc in Hinv1. auto.
  - split.
    + intros id' s' Hlook Hlive.
      pose proof (Hinv id' s' Hlook Hlive) as Hreg'.
      rewrite get_delete_ne; [exact Hreg' | congruence].
    + intros id' s' Hlook Hlive Hname.
      pose proof (Hinv id' s' Hlook Hlive) as Hreg'. congruence.
Qed.

Lemma connect_invariant name url h w :
  invariant w -> invariant (exec (connect name url h) w).
Proof.
  intros Hinv. unfold invariant.
  pose proof (connect_registry name url h w) as Hreg. cbv zeta in Hreg.
  pose proof (teardown_invariant name w Hinv) as [Hinv1 Hnone]. cbv zeta in *.
  set (w1 := if JsMap.has (connections w) name then exec (disconnect name) w else w) in *.
  unfold registry in Hreg.
  destruct (WebSocket_throws url); injection Hreg as -> ->; [exact Hinv1 |].
  intros id s Hlook Hlive.
  apply lookup_snoc_Some in Hlook as [[_ Hlook] | [-> <-]].
  - rewrite get_set_ne; [apply Hinv1; assumption |].
    intros Heq. exact (Hnone id s Hlook Hlive (eq_sym Heq)).
  - simpl. apply get_set_eq.
Qed.

Lemma length_begin_closing id ss : length (begin_closing id ss) = length ss.
Proof.
  unfold begin_closing. destruct (ss !! id) as [s |]; [| reflexivity].
  destruct (readyState s); rewrite ?length_insert; reflexivity.
Qed.

Lemma set_readyState_invariant id r s w :
  sockets w !! id = Some s ->
  (is_live (with_readyState r s) = true -> is_live s = true) ->
  invariant w -> invariant (set_readyState id r w).
Proof.
  intros Hs Hr Hinv id' s' Hlook Hlive. simpl in Hlook. rewrite Hs in Hlook.
  apply list_lookup_insert_Some in Hlook as [(<- & <- & _) | [Hne Hlook]].
  - simpl. apply (Hinv id s Hs). auto.
  - apply Hinv; assumption.
Qed.

(** A property of the registry that [connect], [disconnect] and the changes
    of [readyState] by the host preserve holds in every reachable world. *)
Section Registry_invariant.
Variable P : world -> Prop.
Hypothesis P_registry : forall w w', registry w' = registry w -> P w -> P w'.
Hypothesis P_connect : forall name url h w, P w -> P (exec (connect name url h) w).
Hypothesis P_disconnect : forall name w, P w -> P (exec (disconnect name) w).
Hypothesis P_opens : forall id s w,
  sockets w !! id = Some s -> readyState s = CONNECTING ->
  P w -> P (set_readyState id OPEN w).
Hypothesis P_closes : forall id s w,
  sockets w !! id = Some s -> P w -> P (set_readyState id CLOSED w).

Lemma keeps_registry_preserves {A} (m : M A) w :
  keeps registry m -> P w -> P (exec m w).
Proof. intros Hm. apply P_registry, Hm. Qed.

Lemma for_each_preserves {A} (l : list A) (f : A -> M unit) w :
  (forall x w, P w -> P (exec (f x) w)) -> P w -> P (exec (for_each l f) w).
Proof.
  intros Hf. revert w. induction l as [| x l IH]; intros w Hinv; [exact Hinv |].
  simpl. rewrite exec_bind. destruct (result (f x) w); auto.
Qed.

Lemma deliver_preserves ev w : P w -> P (deliver ev w).
Proof.
  intros Hinv. destruct ev; simpl.
  - apply P_connect, Hinv.
  - apply P_disconnect, Hinv.
  - apply keeps_registry_preserves; [apply send_keeps_registry | exact Hinv].
  - apply keeps_registry_preserves; [intros w'; reflexivity | exact Hinv].
  - destruct (sockets w !! id) as [s |] eqn:Hs; [| exact Hinv].
    destruct (readyState s) eqn:Hr; try exact Hinv.
    apply keeps_registry_preserves; [apply ws_onopen_keeps_registry |].
    eapply P_opens; eassumption.
  - destruct (sockets w !! id) as [s |] eqn:Hs; [| exact Hinv].
    destruct (readyState s) eqn:Hr; try exact Hinv.
    apply keeps_registry_preserves; [apply ws_onmessage_keeps_registry | exact Hinv].
  - destruct (sockets w !! id) as [s |] eqn:Hs; [| exact Hinv].
    destruct (readyState s) eqn:Hr; try exact Hinv;
      (apply keeps_registry_preserves; [apply ws_onerror_keeps_registry | exact Hinv]).
  - destruct (sockets w !! id) as [s |] eqn:Hs; [| exact Hinv].
    destruct (readyState s) eqn:Hr; try exact Hinv;
      (apply keeps_registry_preserves; [apply ws_onclose_keeps_registry |];
       eapply P_closes; eassumption).
  - destruct (find_timer (timeouts w) tid) as [job |]; [| exact Hinv].
    destruct job as [| name url h attempts]; simpl.
    + apply (P_registry w); [reflexivity | exact Hinv].
    + rewrite exec_bind. simpl. apply P_connect.
      apply (P_registry w); [reflexivity | exact Hinv].
  - destruct (find_timer (intervals w) tid) as [job |]; [| exact Hinv].
    apply keeps_registry_preserves; [apply heartbeat_tick_keeps_registry | exact Hinv].
  - apply keeps_registry_preserves; [apply pauseHeartbeats_keeps_registry | exact Hinv].
  - apply keeps_registry_preserves; [apply resumeHeartbeats_keeps_registry | exact Hinv].
  - unfold on_beforeunload. rewrite exec_bind. simpl.
    apply for_each_preserves; [| exact Hinv].
    intros x w'. apply P_disconnect.
Qed.

Lemma reachable_preserves : P initial -> forall w, reachable w -> P w.
Proof.
  intros Hinit w Hreach. induction Hreach as [| w ev _ IH];
    [exact Hinit | apply deliver_preserves, IH].
Qed.
End Registry_invariant.

Lemma reachable_invariant w : reachable w -> invariant w.
Proof.
  apply reachable_preserves.
  - apply invariant_registry.
  - apply connect_invariant.
  - intros name w' Hinv. apply (disconnect_invariant name w' Hinv).
  - intros id s w' Hs Hr. eapply set_readyState_invariant; [exact Hs |].
    unfold is_live. rewrite Hr. trivial.
  - intros id s w' Hs. eapply set_readyState_invariant; [exact Hs | discriminate].
  - intros id s Hlook. discriminate.
Qed.

(** Every registered identifier names a socket of the heap. *)
Definition registered_exist (w : world) : Prop :=
  forall name id, JsMap.get (connections w) name = Some id ->
                  (id < length (sockets w))%nat.

Lemma get_delete_Some {V} (m : JsMap.t V) (k k' : string) (v : V) :
  JsMap.get (JsMap.delete m k) k' = Some v -> JsMap.get m k' = Some v.
Proof.
  destruct (String.eqb_spec k k') as [-> | Hne].
  - rewrite get_delete_eq. discriminate.
  - rewrite get_delete_ne by exact Hne. trivial.
Qed.

Lemma reachable_registered_exist w : reachable w -> registered_exist w.
Proof.
  apply reachable_preserves.
  - unfold registry, registered_exist. intros w1 w2 Heq.
    injection Heq as -> ->. trivial.
  - intros name url h w' Hinv.
    pose proof (connect_registry name url h w') as Hreg. cbv zeta in Hreg.
    assert (Hlen : length (sockets (if JsMap.has (connections w') name
                                    then exec (disconnect name) w' else w'))
                   = length (sockets w')).
    { pose proof (disconnect_registry name w') as Hd. unfold registry in Hd.
      unfold JsMap.has.
      destruct (JsMap.get (connections w') name); [| reflexivity].
      injection Hd as -> _. apply length_begin_closing. }
    set (w1 := if JsMap.has (connections w') name
               then exec (disconnect name) w' else w') in *.
    clearbody w1. unfold registry in Hreg. unfold registered_exist.
    destruct (WebSocket_throws url); injection Hreg as -> ->; intros k id.
    + intros Hget%get_delete_Some. rewrite Hlen. eapply Hinv, Hget.
    + rewrite length_app, Hlen. simpl.
      destruct (String.eqb_spec name k) as [-> | Hne].
      * rewrite get_set_eq. intros [= <-]. lia.
      * rewrite get_set_ne by exact Hne. intros Hget%get_delete_Some.
        apply Hinv in Hget. lia.
  - intros name w' Hinv k id.
    pose proof (disconnect_registry name w') as Hd. unfold registry in Hd.
    destruct (JsMap.get (connections w') name); injection Hd as -> ->.
    + rewrite length_begin_closing. intros Hget%get_delete_Some. eapply Hinv, Hget.
    + apply Hinv.
  - intros id s w' Hs _ Hinv k id'. simpl. rewrite Hs, length_insert. apply Hinv.
  - intros id s w' Hs Hinv k id'. simpl. rewrite Hs, length_insert. apply Hinv.
  - intros name id. discriminate.
Qed.

Lemma begin_closing_not_live id ss s :
  begin_closing id ss !! id = Some s -> is_live s = false.
Proof.
  intros Hlook. destruct (is_live s) eqn:Hlive; [| reflexivity].
  apply begin_closing_live in Hlook as [Hne _]; [congruence | exact Hlive].
Qed.

(** What [stopHeartbeat(name)] asks of the host. *)
Definition stopHeartbeat_effects (w : world) (name : string) : list effect :=
  match JsMap.get (heartbeatTimers w) name with
  | Some t => if Nat.eqb t 0 then [] else [Clear_interval t]
  | None => []
  end.

Lemma stopHeartbeat_trace name w :
  trace (exec (stopHeartbeat name) w) = trace w ++ stopHeartbeat_effects w name.
Proof.
  unfold stopHeartbeat, stopHeartbeat_effects, clearInterval. unfold_monad.
  destruct (JsMap.get (heartbeatTimers w) name) as [t |]; simpl;
    [destruct (Nat.eqb t 0); simpl |]; rewrite ?app_nil_r; reflexivity.
Qed.

Lemma disconnect_trace name w id :
  JsMap.get (connections w) name = Some id ->
  trace (exec (disconnect name) w) =
  trace w ++ stopHeartbeat_effects w name
          ++ [Close_called id 1000 "Intentional disconnect"].
Proof.
  intros Hget. unfold disconnect.
  rewrite exec_bind. cbn [result gets fst exec snd]. rewrite Hget.
  rewrite exec_bind, stopHeartbeat_returns.
  change (trace (exec (stopHeartbeat name) w)
          ++ [Close_called id 1000 "Intentional disconnect"] = 
          trace w ++ stopHeartbeat_effects w name
          ++ [Close_called id 1000 "Intentional disconnect"]).
  rewrite stopHeartbeat_trace, app_assoc. reflexivity.
Qed.

Lemma updateStatus_connecting_keeps_trace message :
  keeps (fun w => (trace w, sockets w)) (updateStatus "connecting" message).
Proof.
  intros w. unfold updateStatus. unfold_monad.
  destruct (statusIndicator w); reflexivity.
Qed.

Lemma connect_trace name url h w id :
  JsMap.get (connections w) name = Some id ->
  exists post,
    trace (exec (connect name url h) w) =
    trace w ++ stopHeartbeat_effects w name
            ++ Close_called id 1000 "Intentional disconnect" :: post /\
    (WebSocket_throws url = None -> post = [New_WebSocket (length (sockets w)) url]).
Proof.
  intros Hget. unfold connect.
  rewrite exec_bind. cbn [result gets fst exec snd].
  unfold JsMap.has. rewrite Hget. cbn [when].
  rewrite exec_bind, disconnect_returns.
  pose proof (disconnect_trace name w id Hget) as Htrace.
  pose proof (disconnect_registry name w) as Hreg.
  rewrite Hget in Hreg. unfold registry in Hreg. injection Hreg as Hsock _.
  set (w1 := exec (disconnect name) w) in *. clearbody w1.
  rewrite exec_bind, updateStatus_returns.
  pose proof (updateStatus_connecting_keeps_trace "Connecting..." w1) as Hkeep.
  set (w2 := exec (updateStatus "connecting" "Connecting...") w1) in *.
  clearbody w2. injection Hkeep as Ht2 Hs2.
  unfold try_catch, new_WebSocket, exec. unfold mbind at 1, M_bind at 1.
  destruct (WebSocket_throws url) as [e |].
  - match goal with
    | |- context [trace (snd (?m w2))] =>
        assert (Hext : exists post, trace (snd (m w2)) = trace w2 ++ post)
    end.
    { unfold updateStatus, setTimeout. unfold_monad. simpl.
      destruct (statusIndicator w2); simpl; destruct (onError h); simpl;
        rewrite <- ?app_assoc; eexists; reflexivity. }
    destruct Hext as [post Hpost]. exists post. split; [| discriminate].
    rewrite Hpost, Ht2, Htrace, <- !app_assoc. reflexivity.
  - eexists. split; [| reflexivity].
    unfold_monad. simpl. rewrite Ht2, Hs2, Htrace, Hsock, length_begin_closing.
    rewrite <- !app_assoc. reflexivity.
Qed.

Lemma run_reachable evs w : reachable w -> reachable (run evs w).
Proof.
  revert w. induction evs as [| ev evs IH]; intros w Hw; [exact Hw |].
  apply IH. constructor. exact Hw.
Qed.

(** C4.  After any sequence of calls and host events, two live transports
    never carry the same name.  When [connect] is called for a name that is
    registered, the registered transport is asked to close, with code 1000,
    before the new one is made, and it is not live afterwards. *)
Theorem at_most_one_live_transport (evs : list event) :
  let w := run evs initial in
  (forall id1 id2 s1 s2,
      sockets w !! id1 = Some s1 -> sockets w !! id2 = Some s2 ->
      is_live s1 = true -> is_live s2 = true ->
      ws_name s1 = ws_name s2 -> id1 = id2) /\
  (forall name url h id,
      JsMap.get (connections w) name = Some id ->
      let w' := exec (connect name url h) w in
      (forall s, sockets w' !! id = Some s -> is_live s = false) /\
      exists post,
        trace w' =
        trace w ++ stopHeartbeat_effects w name
                ++ Close_called id 1000 "Intentional disconnect" :: post /\
        (WebSocket_throws url = None ->
         post = [New_WebSocket (length (sockets w)) url])).
Proof.
  intros w.
  assert (Hreach : reachable w) by (apply run_reachable; constructor).
  pose proof (reachable_invariant w Hreach) as Hinv.
  pose proof (reachable_registered_exist w Hreach) as Hrange.
  split.
  - intros id1 id2 s1 s2 H1 H2 L1 L2 Hname.
    pose proof (Hinv id1 s1 H1 L1) as R1.
    pose proof (Hinv id2 s2 H2 L2) as R2.
    rewrite Hname in R1. congruence.
  - intros name url h id Hget. cbv zeta. split; [| apply connect_trace, Hget].
    intros s Hlook.
    pose proof (connect_registry name url h w) as Hreg. cbv zeta in Hreg.
    pose proof (disconnect_registry name w) as Hd.
    unfold JsMap.has in Hreg. rewrite Hget in Hreg, Hd.
    unfold registry in Hreg, Hd. injection Hd as Hd _. rewrite Hd in Hreg.
    assert (Hlt : (id < length (begin_closing id (sockets w)))%nat).
    { rewrite length_begin_closing. eapply Hrange, Hget. }
    destruct (WebSocket_throws url); injection Hreg as Hs _; rewrite Hs in Hlook.
    + eapply begin_closing_not_live, Hlook.
    + rewrite lookup_app_l in Hlook by exact Hlt.
      eapply begin_closing_not_live, Hlook.
Qed.

(** ** The counter of reconnect attempts (C1, C2, C3) *)

(** The delays of the reconnects scheduled for a name, in order. *)
Definition reconnect_delays (name : string) (w : world) : list Z :=
  omap (fun e => match e with
                 | Set_timeout _ delay (Reconnect n _ _ _) =>
                     if String.eqb n name then Some delay else None
                 | _ => None
                 end) (trace w).

(** The timer of [scheduleReconnect] sets the counter to [attempts + 1] and
    calls [connect]; the name is still registered with the closed socket, so
    [connect] calls [disconnect], which deletes the counter again. *)
Lemma reconnect_timer_forgets_attempts name url h attempts w :
  JsMap.has (connections w) name = true ->
  JsMap.get (reconnectAttempts (exec (run_timeout (Reconnect name url h attempts)) w))
            name = None.
Proof.
  intros Hhas. unfold run_timeout. rewrite exec_bind. cbn [result modify fst].
  rewrite exec_modify. unfold connect.
  rewrite exec_bind. cbn [result gets fst exec snd set_reconnectAttempts connections].
  rewrite Hhas. cbn [when]. rewrite exec_bind, disconnect_returns.
  match goal with
  | |- context [exec (disconnect name) ?w0] =>
      assert (Hdel : JsMap.get (reconnectAttempts (exec (disconnect name) w0)) name = None)
  end.
  { unfold disconnect. rewrite exec_bind.
    cbn [result gets fst exec snd set_reconnectAttempts connections].
    unfold JsMap.has in Hhas.
    destruct (JsMap.get (connections w) name) as [id |]; [| discriminate].
    rewrite exec_bind, stopHeartbeat_returns.
    cbn. apply get_delete_eq. }
  revert Hdel.
  match goal with
  | |- context [exec (disconnect name) ?w0] => generalize (exec (disconnect name) w0)
  end.
  intros w1 Hdel.
  assert (Hkeep : keeps reconnectAttempts
            (updateStatus "connecting" "Connecting...";;
             try_catch
               (ws ← new_WebSocket url name h;
                modify (set_connections (fun m => JsMap.set m name ws));;
                modify (set_messageHandlers (fun m => JsMap.set m name h)))
               (fun error =>
                  console_error ("Failed to create WebSocket " +:+ name +:+ ":") [error];;
                  updateStatus "disconnected" "Connection Failed";;
                  call_if_set (onError h) [error]))).
  { unfold updateStatus, new_WebSocket. solve_keeps.
    intros w'. unfold exec. destruct (WebSocket_throws url); reflexivity. }
  rewrite Hkeep. exact Hdel.
Qed.

(** [disconnect] leaves every pending timeout in place. *)
Lemma disconnect_keeps_timeouts name : keeps timeouts (disconnect name).
Proof. unfold disconnect, stopHeartbeat. solve_keeps. Qed.

(** ** Heartbeat and pong (C7) *)

(** When the host opens a transport, [ws.onopen] installs the heartbeat of
    its connection: an interval of [heartbeatInterval] milliseconds for this
    very socket, kept under the name of the connection. *)
Lemma open_starts_heartbeat (evs : list event) (id : nat) (s : WebSocket) :
  let w := run evs initial in
  sockets w !! id = Some s ->
  readyState s = CONNECTING ->
  let w' := deliver (Socket_opens id) w in
  intervals w' = intervals w ++ [(next_timer w, heartbeatInterval w, Beat (ws_name s) id)] /\
  JsMap.get (heartbeatTimers w') (ws_name s) = Some (next_timer w).
Proof.
  intros w Hs Hr.
  assert (Hreach : reachable w) by (apply run_reachable; constructor).
  assert (Hget : JsMap.get (connections w) (ws_name s) = Some id).
  { apply (reachable_invariant w Hreach id s Hs). unfold is_live. rewrite Hr. trivial. }
  cbv zeta. cbn [deliver]. rewrite Hs, Hr.
  unfold ws_onopen, startHeartbeat, setInterval. unfold_monad. simpl.
  rewrite Hget. simpl.
  destruct (onConnect (ws_handlers s)); simpl; rewrite get_set_eq; split; reflexivity.
Qed.



(** Whatever the number of the reconnect that has just failed, the next one
    starts the backoff again: when the timer of a reconnect fires for a name
    that is still registered and the transport it opens closes with a code
    other than 1000, the reconnect scheduled then has attempt number 0 and
    the base delay. *)
Lemma next_reconnect_restarts_backoff (w : world) (tid : nat) (name url : string)
    (h : handlers) (attempts code : Z) (reason : string) :
  find_timer (timeouts w) tid = Some (Reconnect name url h attempts) ->
  JsMap.has (connections w) name = true ->
  WebSocket_throws url = None ->
  onDisconnect_returns h code reason ->
  code <> 1000 ->
  let w1 := deliver (Timeout_fires tid) w in
  0 < maxReconnectAttempts w1 ->
  sockets w1 !! length (sockets w) = Some (Socket url CONNECTING name h) /\
  timeouts (deliver (Socket_closes (length (sockets w)) code reason) w1) =
  timeouts w1 ++ [(next_timer w1, reconnectDelay w1 * 2 ^ 0, Reconnect name url h 0)].
Proof.
  intros Hjob Hhas Hctor Hret Hcode w1 Hmax.
  assert (Hw1 : w1 = exec (run_timeout (Reconnect name url h attempts))
                          (set_timeouts (drop_timer tid) w)).
  { unfold w1. cbn [deliver]. rewrite Hjob. reflexivity. }
  assert (Hforget : JsMap.get (reconnectAttempts w1) name = None).
  { rewrite Hw1. apply reconnect_timer_forgets_attempts. exact Hhas. }
  assert (Hsock : sockets w1 !! length (sockets w)
                  = Some (Socket url CONNECTING name h)).
  { rewrite Hw1. unfold run_timeout. rewrite exec_bind. cbn [result modify fst].
    rewrite exec_modify.
    match goal with
    | |- context [exec (connect name url h) ?w0] =>
        pose proof (connect_registry name url h w0) as Hreg;
        pose proof (disconnect_registry name w0) as Hd
    end.
    cbv zeta in Hreg. cbn [connections set_reconnectAttempts set_timeouts] in Hreg, Hd.
    rewrite Hhas, Hctor in Hreg. unfold registry in Hreg, Hd.
    injection Hreg as Hs _. rewrite Hs. clear Hs.
    unfold JsMap.has in Hhas.
    destruct (JsMap.get (connections w) name) as [id |]; [| discriminate].
    injection Hd as Hd _. rewrite Hd. cbn [sockets set_reconnectAttempts set_timeouts].
    rewrite lookup_app_r by (rewrite length_begin_closing; lia).
    rewrite length_begin_closing, Nat.sub_diag. reflexivity. }
  split; [exact Hsock |].
  pose proof (closure_outcome w1 (length (sockets w))
                (Socket url CONNECTING name h) code reason Hsock
                ltac:(discriminate)) as [_ Hpath].
  specialize (Hpath Hcode Hret). cbn [ws_name ws_url ws_handlers] in Hpath.
  unfold reconnect_path_taken, attempts_or_zero in Hpath. rewrite Hforget in Hpath.
  destruct (0 >=? maxReconnectAttempts w1) eqn:Hge; [lia | exact Hpath].
Qed.

(** ** Any number of failures in a row *)

Definition timers_and_limits (w : world) :=
  (timeouts w, next_timer w, maxReconnectAttempts w, reconnectDelay w).

Definition counters_and_limits (w : world) :=
  (reconnectAttempts w, maxReconnectAttempts w, reconnectDelay w).

Lemma updateStatus_keeps_timers status message :
  String.eqb status "connected" = false ->
  keeps timers_and_limits (updateStatus status message).
Proof.
  intros Hstatus w. unfold updateStatus. unfold_monad. rewrite Hstatus.
  destruct (statusIndicator w); reflexivity.
Qed.

Lemma connect_keeps_timers name url h : keeps timers_and_limits (connect name url h).
Proof.
  unfold connect.
  apply keeps_bind; [solve_keeps | intros has].
  apply keeps_bind; [unfold disconnect, stopHeartbeat; solve_keeps | intros _].
  apply keeps_bind; [apply updateStatus_keeps_timers; reflexivity | intros _].
  apply keeps_try_catch.
  - apply keeps_bind; [| intros ws; solve_keeps].
    intros w. unfold new_WebSocket, exec. destruct (WebSocket_throws url); reflexivity.
  - intros e. apply keeps_bind; [solve_keeps | intros _].
    apply keeps_bind; [apply updateStatus_keeps_timers; reflexivity | intros _].
    solve_keeps.
Qed.

Lemma ws_onclose_keeps_counters name url h code reason :
  keeps counters_and_limits (ws_onclose name url h code reason).
Proof. unfold ws_onclose, stopHeartbeat, scheduleReconnect, updateStatus. solve_keeps. Qed.

Lemma scheduleReconnect_next_timer name url h w :
  (attempts_or_zero w name >=? maxReconnectAttempts w) = false ->
  next_timer (exec (scheduleReconnect name url h) w) = S (next_timer w).
Proof.
  intros Hlt. unfold scheduleReconnect, updateStatus, setTimeout.
  unfold_monad. simpl. rewrite Hlt. simpl.
  destruct (statusIndicator w); reflexivity.
Qed.

(** What the timer of a reconnect leaves behind when the name is still
    registered and the host makes the transport. *)
Lemma reconnect_timer_outcome (w : world) (name url : string) (h : handlers)
    (attempts : Z) :
  JsMap.has (connections w) name = true ->
  WebSocket_throws url = None ->
  let w' := exec (run_timeout (Reconnect name url h attempts)) w in
  JsMap.get (connections w') name = Some (length (sockets w)) /\
  sockets w' !! length (sockets w) = Some (Socket url CONNECTING name h) /\
  JsMap.get (reconnectAttempts w') name = None /\
  timers_and_limits w' = timers_and_limits w.
Proof.
  intros Hhas Hctor w'.
  assert (Hforget : JsMap.get (reconnectAttempts w') name = None)
    by (apply reconnect_timer_forgets_attempts; exact Hhas).
  assert (Hw' : w' = exec (connect name url h)
                       (set_reconnectAttempts
                          (fun m => JsMap.set m name (attempts + 1)) w)).
  { unfold w', run_timeout. rewrite (exec_bind (modify _)). reflexivity. }
  set (w0 := set_reconnectAttempts (fun m => JsMap.set m name (attempts + 1)) w) in *.
  pose proof (connect_registry name url h w0) as Hreg.
  pose proof (disconnect_registry name w0) as Hd.
  pose proof (connect_keeps_timers name url h w0) as Hkeep.
  cbv zeta in Hreg.
  change (connections w0) with (connections w) in Hreg, Hd.
  change (sockets w0) with (sockets w) in Hd.
  rewrite Hhas, Hctor in Hreg. unfold registry in Hreg, Hd.
  unfold JsMap.has in Hhas.
  destruct (JsMap.get (connections w) name) as [id |]; [| discriminate].
  injection Hd as Hd _. rewrite Hd, length_begin_closing in Hreg.
  rewrite <- Hw' in Hreg, Hkeep. injection Hreg as Hs Hc.
  rewrite Hs, Hc. repeat split.
  - apply get_set_eq.
  - rewrite lookup_app_r by (rewrite length_begin_closing; lia).
    rewrite length_begin_closing, Nat.sub_diag. reflexivity.
  - exact Hforget.
  - exact Hkeep.
Qed.

(** A connection whose transport was just made, with no failure counted,
    and timers whose identifiers are all in use. *)
Definition retrying (name url : string) (h : handlers) (w : world) : Prop :=
  (exists id, JsMap.get (connections w) name = Some id /\
              sockets w !! id = Some (Socket url CONNECTING name h)) /\
  JsMap.get (reconnectAttempts w) name = None /\
  0 < maxReconnectAttempts w /\
  Forall (fun t => (fst (fst t) < next_timer w)%nat) (timeouts w).

(** The registered transport of [name] fails with [code], and the reconnect
    that this schedules fires. *)
Definition fail_and_retry (name : string) (code : Z) (reason : string)
    (w : world) : world :=
  match JsMap.get (connections w) name with
  | Some id =>
      deliver (Timeout_fires (next_timer w)) (deliver (Socket_closes id code reason) w)
  | None => w
  end.

Lemma find_timer_fresh {J} (ts : list (nat * Z * J)) (n : nat) (d : Z) (j : J) :
  Forall (fun t => (fst (fst t) < n)%nat) ts ->
  find_timer (ts ++ [(n, d, j)]) n = Some j /\
  drop_timer n (ts ++ [(n, d, j)]) = ts.
Proof.
  unfold drop_timer. induction 1 as [| [[t d'] j'] ts Hlt _ [IH1 IH2]]; simpl in *.
  - rewrite Nat.eqb_refl. rewrite filter_cons. simpl. rewrite Nat.eqb_refl.
    split; reflexivity.
  - assert (Hne : Nat.eqb t n = false) by (apply Nat.eqb_neq; lia).
    rewrite Hne. split; [exact IH1 |].
    rewrite filter_cons. simpl. rewrite Hne. simpl. f_equal. exact IH2.
Qed.

Lemma retry_round (name url : string) (h : handlers) (code : Z) (reason : string)
    (w : world) (id : nat) :
  WebSocket_throws url = None ->
  onDisconnect_returns h code reason ->
  code <> 1000 ->
  retrying name url h w ->
  JsMap.get (connections w) name = Some id ->
  timeouts (deliver (Socket_closes id code reason) w) =
  timeouts w ++ [(next_timer w, reconnectDelay w * 2 ^ 0, Reconnect name url h 0)] /\
  retrying name url h (fail_and_retry name code reason w) /\
  reconnectDelay (fail_and_retry name code reason w) = reconnectDelay w.
Proof.
  intros Hctor Hret Hcode ((id' & Hget' & Hsock) & Hzero & Hmax & Hfresh) Hget.
  assert (id' = id) as -> by congruence. clear Hget'.
  unfold fail_and_retry. rewrite Hget.
  set (w1 := deliver (Socket_closes id code reason) w).
  assert (Hge : (attempts_or_zero w name >=? maxReconnectAttempts w) = false).
  { unfold attempts_or_zero. rewrite Hzero. lia. }
  (* the closure *)
  pose proof (closure_outcome w id _ code reason Hsock ltac:(discriminate))
    as [_ Hpath].
  specialize (Hpath Hcode Hret). cbn [ws_name ws_url ws_handlers] in Hpath.
  fold w1 in Hpath. unfold reconnect_path_taken in Hpath. rewrite Hge in Hpath.
  unfold attempts_or_zero in Hpath. rewrite Hzero in Hpath.
  assert (Hw1 : w1 = exec (ws_onclose name url h code reason)
                          (set_readyState id CLOSED w)).
  { unfold w1. cbn [deliver]. rewrite Hsock. reflexivity. }
  pose proof (ws_onclose_keeps_registry name url h code reason
                (set_readyState id CLOSED w)) as Hreg1.
  pose proof (ws_onclose_keeps_counters name url h code reason
                (set_readyState id CLOSED w)) as Hcnt1.
  rewrite <- Hw1 in Hreg1, Hcnt1.
  unfold registry in Hreg1. injection Hreg1 as Hs1 Hc1.
  unfold counters_and_limits in Hcnt1. injection Hcnt1 as Ha1 Hm1 Hd1.
  cbn [sockets connections reconnectAttempts maxReconnectAttempts reconnectDelay
       set_readyState set_sockets] in Hs1, Hc1, Ha1, Hm1, Hd1.
  rewrite Hsock in Hs1.
  assert (Hn1 : next_timer w1 = S (next_timer w)).
  { rewrite Hw1, ws_onclose_split.
    rewrite close_prologue_returns by exact Hret.
    apply Z.eqb_neq in Hcode. rewrite Hcode.
    pose proof (close_prologue_keeps_backoff name h code reason
                  (set_readyState id CLOSED w)) as Hk.
    rewrite set_readyState_backoff in Hk. unfold backoff_state in Hk.
    injection Hk as Hka Hkm _ _ _ Hkn.
    rewrite scheduleReconnect_next_timer; [congruence |].
    unfold attempts_or_zero. rewrite Hka, Hkm, Hzero. lia. }
  split; [exact Hpath |].
  (* the timer *)
  destruct (find_timer_fresh (timeouts w) (next_timer w) (reconnectDelay w * 2 ^ 0)
              (Reconnect name url h 0) Hfresh) as [Hfind Hdrop].
  rewrite <- Hpath in Hfind, Hdrop.
  cbn [deliver]. rewrite Hfind.
  set (w1' := set_timeouts (drop_timer (next_timer w)) w1).
  assert (Hhas : JsMap.has (connections w1') name = true).
  { unfold JsMap.has. cbn [connections w1' set_timeouts]. rewrite Hc1, Hget. reflexivity. }
  pose proof (reconnect_timer_outcome w1' name url h 0 Hhas Hctor) as Hout.
  cbv zeta in Hout.
  set (w2 := exec (run_timeout (Reconnect name url h 0)) w1') in *.
  destruct Hout as (Hc2 & Hs2 & Ha2 & Hk2).
  unfold timers_and_limits in Hk2. injection Hk2 as Ht2 Hn2 Hm2 Hd2.
  change (timeouts w1') with (drop_timer (next_timer w) (timeouts w1)) in Ht2.
  change (next_timer w1') with (next_timer w1) in Hn2.
  change (maxReconnectAttempts w1') with (maxReconnectAttempts w1) in Hm2.
  change (reconnectDelay w1') with (reconnectDelay w1) in Hd2.
  split; [| congruence].
  split; [eexists; split; [exact Hc2 | exact Hs2] |].
  split; [exact Ha2 |].
  split; [congruence |].
  rewrite Ht2, Hn2, Hdrop, Hn1.
  eapply Forall_impl; [exact Hfresh |]. intros t Ht. simpl in *. lia.
Qed.

(** However many times in a row the transport of a connection fails and its
    reconnect fires, the next failure schedules a reconnect with attempt
    number 0 and the base delay: the delay never doubles and the counter
    never comes near the maximum. *)
Lemma backoff_never_grows (name url : string) (h : handlers) (code : Z)
    (reason : string) (w0 : world) (n : nat) :
  WebSocket_throws url = None ->
  onDisconnect_returns h code reason ->
  code <> 1000 ->
  retrying name url h w0 ->
  let w := Nat.iter n (fail_and_retry name code reason) w0 in
  exists id,
    JsMap.get (connections w) name = Some id /\
    timeouts (deliver (Socket_closes id code reason) w) =
    timeouts w ++ [(next_timer w, reconnectDelay w0 * 2 ^ 0, Reconnect name url h 0)].
Proof.
  intros Hctor Hret Hcode Hstart. cbv zeta.
  assert (Hinv : retrying name url h (Nat.iter n (fail_and_retry name code reason) w0) /\
                 reconnectDelay (Nat.iter n (fail_and_retry name code reason) w0)
                 = reconnectDelay w0).
  { induction n as [| n [IHr IHd]]; [split; [exact Hstart | reflexivity] |].
    change (Nat.iter (S n) (fail_and_retry name code reason) w0)
      with (fail_and_retry name code reason
              (Nat.iter n (fail_and_retry name code reason) w0)).
    pose proof IHr as ((id & Hget & _) & _).
    pose proof (retry_round name url h code reason _ id Hctor Hret Hcode IHr Hget)
      as (_ & Hr & Hd).
    split; [exact Hr | rewrite Hd; exact IHd]. }
  destruct Hinv as [Hr Hd].
  pose proof Hr as ((id & Hget & _) & _).
  exists id. split; [exact Hget |].
  rewrite <- Hd.
  apply (retry_round name url h code reason _ id Hctor Hret Hcode Hr Hget).
Qed.


(** * Further properties of the manager *)

(** ** [connect] *)


(** ** Heartbeats belong to open transports

    The bookkeeping that the manager keeps across all events: the registry
    names sockets by their own name, timer identifiers are positive and
    fresh, and a heartbeat registered under a name is a pending interval
    that pings the open transport registered under that name. *)

Lemma find_timer_elem {J} (ts : list (nat * Z * J)) (t : nat) (j : J) :
  find_timer ts t = Some j -> exists d, (t, d, j) ∈ ts.
Proof.
  induction ts as [| [[t' d'] j'] ts IH]; simpl; [discriminate |].
  destruct (Nat.eqb_spec t' t) as [-> | Hne].
  - intros [= ->]. exists d'. left.
  - intros H. destruct (IH H) as [d Hd]. exists d. right. exact Hd.
Qed.

Lemma find_timer_app_other {J} (ts : list (nat * Z * J)) (n t : nat) (d : Z) (j : J) :
  t <> n -> find_timer (ts ++ [(n, d, j)]) t = find_timer ts t.
Proof.
  intros Hne. induction ts as [| [[t' d'] j'] ts IH]; simpl.
  - destruct (Nat.eqb_spec n t); [congruence | reflexivity].
  - destruct (Nat.eqb t' t); [reflexivity | exact IH].
Qed.

Lemma find_timer_drop_other {J} (ts : list (nat * Z * J)) (t t' : nat) :
  t <> t' -> find_timer (drop_timer t' ts) t = find_timer ts t.
Proof.
  intros Hne. unfold drop_timer.
  induction ts as [| [[t0 d0] j0] ts IH]; [reflexivity |].
  rewrite filter_cons. simpl.
  destruct (Nat.eqb_spec t0 t') as [-> | Hne0]; simpl.
  - destruct (Nat.eqb_spec t' t); [congruence | exact IH].
  - destruct (Nat.eqb t0 t); [reflexivity | exact IH].
Qed.

Lemma find_timer_drop_same {J} (ts : list (nat * Z * J)) (t : nat) :
  find_timer (drop_timer t ts) t = None.
Proof.
  unfold drop_timer. induction ts as [| [[t0 d0] j0] ts IH]; [reflexivity |].
  rewrite filter_cons. simpl.
  destruct (Nat.eqb_spec t0 t) as [-> | Hne0]; simpl; [exact IH |].
  destruct (Nat.eqb_spec t0 t); [congruence | exact IH].
Qed.

Lemma Forall_drop_timer {J} (P : nat * Z * J -> Prop) (ts : list (nat * Z * J)) (t : nat) :
  Forall P ts -> Forall P (drop_timer t ts).
Proof.
  unfold drop_timer. induction 1 as [| x ts Hx _ IH]; [constructor |].
  rewrite filter_cons. destruct (decide _); [constructor |]; assumption.
Qed.

Definition heartbeat_of (ss : list WebSocket) (conns : JsMap.t nat)
    (ints : list (nat * Z * interval_job)) (name : string) (t : nat) : Prop :=
  exists id s,
    JsMap.get conns name = Some id /\ ss !! id = Some s /\
    readyState s = OPEN /\ find_timer ints t = Some (Beat name id).

Definition wf_parts (ss : list WebSocket) (conns hbt : JsMap.t nat)
    (ints : list (nat * Z * interval_job)) (nt : nat) : Prop :=
  live_registered ss conns /\
  (forall name id, JsMap.get conns name = Some id ->
                   exists s, ss !! id = Some s /\ ws_name s = name) /\
  (1 <= nt)%nat /\
  Forall (fun t => (1 <= fst (fst t) < nt)%nat) ints /\
  (forall name t, JsMap.get hbt name = Some t -> heartbeat_of ss conns ints name t).

Definition wf (w : world) : Prop :=
  wf_parts (sockets w) (connections w) (heartbeatTimers w) (intervals w)
           (next_timer w).

Definition core (w : world) :=
  (sockets w, connections w, heartbeatTimers w, intervals w, next_timer w).

Lemma wf_core w w' : core w' = core w -> wf w -> wf w'.
Proof. unfold core, wf. intros Heq. injection Heq as -> -> -> -> ->. trivial. Qed.

Lemma wf_timer_positive ss conns hbt ints nt name t :
  wf_parts ss conns hbt ints nt -> JsMap.get hbt name = Some t ->
  (1 <= t < nt)%nat.
Proof.
  intros (_ & _ & _ & Hints & Hhb) Hget.
  destruct (Hhb name t Hget) as (id & s & _ & _ & _ & Hfind).
  apply find_timer_elem in Hfind as [d Hd].
  rewrite Forall_forall in Hints. exact (Hints _ Hd).
Qed.

(** The transformations of the bookkeeping that the methods are made of. *)

Lemma wf_stop ss conns hbt ints nt name t :
  wf_parts ss conns hbt ints nt -> JsMap.get hbt name = Some t ->
  wf_parts ss conns (JsMap.delete hbt name) (drop_timer t ints) nt.
Proof.
  intros Hwf Hget. pose proof Hwf as (Hlive & Hnamed & Hnt & Hints & Hhb).
  repeat split; try assumption.
  - apply Forall_drop_timer, Hints.
  - rename t into t0. intros name' t' Hget'.
    destruct (String.eqb_spec name name') as [-> | Hne].
    { rewrite get_delete_eq in Hget'. discriminate. }
    rewrite get_delete_ne in Hget' by exact Hne.
    destruct (Hhb name' t' Hget') as (id & s & Hc & Hs & Hopen & Hfind).
    exists id, s. repeat split; try assumption.
    rewrite find_timer_drop_other; [exact Hfind |].
    intros ->. destruct (Hhb name t0 Hget) as (id0 & s0 & _ & _ & _ & Hfind0).
    congruence.
Qed.

Lemma wf_start ss conns hbt ints nt name id s d :
  wf_parts ss conns hbt ints nt ->
  JsMap.get conns name = Some id -> ss !! id = Some s -> readyState s = OPEN ->
  wf_parts ss conns (JsMap.set hbt name nt) (ints ++ [(nt, d, Beat name id)]) (S nt).
Proof.
  intros Hwf Hc Hs Hopen. pose proof Hwf as (Hlive & Hnamed & Hnt & Hints & Hhb).
  repeat split; try assumption; try lia.
  - apply Forall_app. split.
    + eapply Forall_impl; [exact Hints |]. intros x Hx. simpl in *. lia.
    + constructor; [simpl; lia | constructor].
  - intros name' t' Hget'.
    destruct (String.eqb_spec name name') as [<- | Hne].
    + rewrite get_set_eq in Hget'. injection Hget' as <-.
      exists id, s. repeat split; try assumption.
      apply find_timer_fresh.
      eapply Forall_impl; [exact Hints |]. intros x Hx. simpl in *. lia.
    + rewrite get_set_ne in Hget' by exact Hne.
      destruct (Hhb name' t' Hget') as (id' & s' & Hc' & Hs' & Hopen' & Hfind').
      exists id', s'. repeat split; try assumption.
      rewrite find_timer_app_other; [exact Hfind' |].
      pose proof (wf_timer_positive _ _ _ _ _ _ _ Hwf Hget'). lia.
Qed.

Lemma wf_next_timer ss conns hbt ints nt nt' :
  (nt <= nt')%nat -> wf_parts ss conns hbt ints nt -> wf_parts ss conns hbt ints nt'.
Proof.
  intros Hle (Hlive & Hnamed & Hnt & Hints & Hhb).
  repeat split; try assumption; try lia.
  eapply Forall_impl; [exact Hints |]. intros x Hx. simpl in *. lia.
Qed.

Lemma wf_set_readyState ss conns hbt ints nt id s r :
  wf_parts ss conns hbt ints nt -> ss !! id = Some s ->
  (is_live (with_readyState r s) = true -> is_live s = true) ->
  (r = OPEN \/ JsMap.get hbt (ws_name s) = None) ->
  wf_parts (<[id := with_readyState r s]> ss) conns hbt ints nt.
Proof.
  intros (Hlive & Hnamed & Hnt & Hints & Hhb) Hs Hr Hsafe.
  assert (Hlt : (id < length ss)%nat) by (eapply lookup_lt_Some; exact Hs).
  repeat split; try assumption.
  - intros id' s' Hlook Hl.
    apply list_lookup_insert_Some in Hlook as [(<- & <- & _) | [Hne Hlook]].
    + simpl. apply (Hlive id s Hs). auto.
    + apply Hlive; assumption.
  - intros name id' Hget. destruct (Hnamed name id' Hget) as (s' & Hs' & Hname).
    destruct (decide (id = id')) as [<- | Hne].
    + exists (with_readyState r s). rewrite list_lookup_insert_eq by exact Hlt.
      split; [reflexivity |]. simpl. congruence.
    + exists s'. rewrite list_lookup_insert_ne by exact Hne. auto.
  - intros name t Hget.
    destruct (Hhb name t Hget) as (id' & s' & Hc & Hs' & Hopen & Hfind).
    destruct (decide (id = id')) as [<- | Hne].
    + assert (s' = s) as -> by congruence.
      destruct (Hnamed name id Hc) as (s0 & Hs0 & Hname).
      assert (s0 = s) as -> by congruence.
      destruct Hsafe as [-> | Hnone]; [| congruence].
      exists id, (with_readyState OPEN s).
      rewrite list_lookup_insert_eq by exact Hlt. auto.
    + exists id', s'. rewrite list_lookup_insert_ne by exact Hne. auto.
Qed.

Lemma wf_begin_closing ss conns hbt ints nt id s :
  wf_parts ss conns hbt ints nt -> ss !! id = Some s ->
  JsMap.get hbt (ws_name s) = None ->
  wf_parts (begin_closing id ss) conns hbt ints nt.
Proof.
  intros Hwf Hs Hnone. unfold begin_closing. rewrite Hs.
  destruct (readyState s) eqn:Hr; try exact Hwf;
    (eapply wf_set_readyState; [exact Hwf | exact Hs | discriminate | auto]).
Qed.

Lemma wf_unregister ss conns hbt ints nt name id :
  wf_parts ss conns hbt ints nt ->
  JsMap.get conns name = Some id ->
  (forall s, ss !! id = Some s -> is_live s = false) ->
  JsMap.get hbt name = None ->
  wf_parts ss (JsMap.delete conns name) hbt ints nt.
Proof.
  intros (Hlive & Hnamed & Hnt & Hints & Hhb) Hget Hdead Hnone.
  repeat split; try assumption.
  - intros id' s' Hlook Hl.
    pose proof (Hlive id' s' Hlook Hl) as Hreg.
    rewrite get_delete_ne; [exact Hreg |].
    intros Heq. rewrite <- Heq in Hreg.
    assert (id' = id) as -> by congruence.
    rewrite (Hdead s' Hlook) in Hl. discriminate.
  - intros name' id' Hget'%get_delete_Some. apply Hnamed, Hget'.
  - intros name' t Hget'.
    destruct (Hhb name' t Hget') as (id' & s' & Hc & Hs' & Hopen & Hfind).
    exists id', s'. repeat split; try assumption.
    rewrite get_delete_ne; [exact Hc | congruence].
Qed.

Lemma wf_register ss conns hbt ints nt name url h :
  wf_parts ss conns hbt ints nt ->
  JsMap.get conns name = None ->
  wf_parts (ss ++ [Socket url CONNECTING name h])
           (JsMap.set conns name (length ss)) hbt ints nt.
Proof.
  intros (Hlive & Hnamed & Hnt & Hints & Hhb) Hnone.
  repeat split; try assumption.
  - intros id s Hlook Hl.
    apply lookup_snoc_Some in Hlook as [[_ Hlook] | [-> <-]].
    + pose proof (Hlive id s Hlook Hl) as Hreg.
      rewrite get_set_ne; [exact Hreg | congruence].
    + simpl. apply get_set_eq.
  - intros name' id Hget.
    destruct (String.eqb_spec name name') as [<- | Hne].
    + rewrite get_set_eq in Hget. injection Hget as <-.
      exists (Socket url CONNECTING name h).
      rewrite lookup_app_r by lia. rewrite Nat.sub_diag. auto.
    + rewrite get_set_ne in Hget by exact Hne.
      destruct (Hnamed name' id Hget) as (s & Hs & Hname).
      exists s. split; [| exact Hname].
      apply lookup_app_l_Some. exact Hs.
  - intros name' t Hget.
    destruct (Hhb name' t Hget) as (id & s & Hc & Hs & Hopen & Hfind).
    exists id, s. repeat split; try assumption.
    + rewrite get_set_ne; [exact Hc | congruence].
    + apply lookup_app_l_Some. exact Hs.
Qed.

Lemma wf_no_heartbeats ss conns hbt ints ints' nt :
  wf_parts ss conns hbt ints nt ->
  Forall (fun t => (1 <= fst (fst t) < nt)%nat) ints' ->
  wf_parts ss conns JsMap.empty ints' nt.
Proof.
  intros (Hlive & Hnamed & Hnt & Hints & Hhb) Hints'.
  repeat split; try assumption. intros name t. discriminate.
Qed.

(** [steps R m]: running [m] moves the world along the preorder [R], whether
    [m] returns or throws. *)
Section Steps.
Context (R : world -> world -> Prop).
Hypothesis R_refl : forall w, R w w.
Hypothesis R_trans : forall w1 w2 w3, R w1 w2 -> R w2 w3 -> R w1 w3.

Definition steps {A} (m : M A) : Prop := forall w, R w (exec m w).

Lemma steps_ret {A} (a : A) : steps (mret a).
Proof. intros w. apply R_refl. Qed.

Lemma steps_bind {A C} (m : M A) (f : A -> M C) :
  steps m -> (forall a, steps (f a)) -> steps (m ≫= f).
Proof.
  intros Hm Hf w. rewrite exec_bind.
  destruct (result m w); [eapply R_trans; [apply Hm | apply Hf] | apply Hm].
Qed.

Lemma steps_try_catch {A} (body : M A) (handler : jsval -> M A) :
  steps body -> (forall e, steps (handler e)) -> steps (try_catch body handler).
Proof.
  intros Hb Hh w. specialize (Hb w). unfold exec, try_catch in *.
  destruct (body w) as [[a | e] w']; simpl in *; [assumption |].
  eapply R_trans; [exact Hb | apply Hh].
Qed.

Lemma steps_when (b : bool) (m : M unit) : steps m -> steps (when b m).
Proof. intros Hm. destruct b; [exact Hm | apply steps_ret]. Qed.

Lemma steps_for_each {A} (l : list A) (f : A -> M unit) :
  (forall x, steps (f x)) -> steps (for_each l f).
Proof.
  intros Hf. induction l as [| x l IH]; simpl.
  - apply steps_ret.
  - apply steps_bind; [apply Hf | intros _; exact IH].
Qed.
End Steps.

(** The bookkeeping is untouched, and timer identifiers may have been used. *)
Definition grows (w w' : world) : Prop :=
  sockets w' = sockets w /\ connections w' = connections w /\
  heartbeatTimers w' = heartbeatTimers w /\ intervals w' = intervals w /\
  (next_timer w <= next_timer w')%nat.

Lemma grows_refl w : grows w w.
Proof. repeat split. apply Nat.le_refl. Qed.

Lemma grows_trans w1 w2 w3 : grows w1 w2 -> grows w2 w3 -> grows w1 w3.
Proof.
  unfold grows. intros (? & ? & ? & ? & ?) (? & ? & ? & ? & ?).
  repeat split; try congruence. lia.
Qed.

Lemma wf_grows w w' : grows w w' -> wf w -> wf w'.
Proof.
  unfold wf, grows. intros (-> & -> & -> & -> & Hle). apply wf_next_timer, Hle.
Qed.

Lemma grows_ret {A} (a : A) : steps grows (mret a).
Proof. apply steps_ret, grows_refl. Qed.

Lemma grows_bind {A C} (m : M A) (f : A -> M C) :
  steps grows m -> (forall a, steps grows (f a)) -> steps grows (m ≫= f).
Proof. apply steps_bind; first [exact grows_refl | exact grows_trans]. Qed.

Lemma grows_try_catch {A} (body : M A) (handler : jsval -> M A) :
  steps grows body -> (forall e, steps grows (handler e)) ->
  steps grows (try_catch body handler).
Proof. apply steps_try_catch; first [exact grows_refl | exact grows_trans]. Qed.

Lemma grows_when (b : bool) (m : M unit) : steps grows m -> steps grows (when b m).
Proof. apply steps_when; first [exact grows_refl | exact grows_trans]. Qed.

Lemma grows_for_each {A} (l : list A) (f : A -> M unit) :
  (forall x, steps grows (f x)) -> steps grows (for_each l f).
Proof. apply steps_for_each; first [exact grows_refl | exact grows_trans]. Qed.

Ltac grows_step :=
  first
    [ solve [intros ?; unfold grows; repeat split; try reflexivity;
             first [apply Nat.eq_le_incl; reflexivity | apply Nat.le_succ_diag_r]]
    | lazymatch goal with
      | |- steps _ (mbind _ _) => apply grows_bind; [| intros ?]
      | |- steps _ (try_catch _ _) => apply grows_try_catch; [| intros ?]
      | |- steps _ (when _ _) => apply grows_when
      | |- steps _ (for_each _ _) => apply grows_for_each; intros ?
      | |- steps _ (call_if_set ?slot _) => destruct slot; unfold call_if_set
      | |- steps _ (match ?x with _ => _ end) => destruct x
      end
    | solve [auto with grows] ].

Ltac solve_grows := repeat grows_step.

Create HintDb grows.

Lemma updateStatus_grows status message : steps grows (updateStatus status message).
Proof. unfold updateStatus. solve_grows. Qed.
#[local] Hint Resolve updateStatus_grows : grows.

Lemma scheduleReconnect_grows name url h : steps grows (scheduleReconnect name url h).
Proof. unfold scheduleReconnect. solve_grows. Qed.
#[local] Hint Resolve scheduleReconnect_grows : grows.

Lemma ws_send_grows id frame : steps grows (ws_send id frame).
Proof. unfold ws_send. solve_grows. Qed.
#[local] Hint Resolve ws_send_grows : grows.

Lemma dispatchEvent_grows ls source data : steps grows (dispatchEvent ls source data).
Proof.
  induction ls as [| [ty cb] ls IH]; simpl; [apply grows_ret |].
  unfold subscription_listener. solve_grows.
Qed.
#[local] Hint Resolve dispatchEvent_grows : grows.

Lemma ws_onmessage_grows name h raw : steps grows (ws_onmessage name h raw).
Proof. unfold ws_onmessage, emitEvent, parse. solve_grows. Qed.

Lemma ws_onerror_grows name h : steps grows (ws_onerror name h).
Proof. unfold ws_onerror. solve_grows. Qed.

Lemma send_grows name data : steps grows (send name data).
Proof. unfold send. solve_grows. Qed.

Lemma subscribe_grows eventType cb : steps grows (subscribe eventType cb).
Proof. unfold subscribe. solve_grows. Qed.

Lemma stopHeartbeat_core name w :
  core (exec (stopHeartbeat name) w) =
  match JsMap.get (heartbeatTimers w) name with
  | Some t =>
      if Nat.eqb t 0 then core w
      else (sockets w, connections w, JsMap.delete (heartbeatTimers w) name,
            drop_timer t (intervals w), next_timer w)
  | None => core w
  end.
Proof.
  unfold stopHeartbeat, clearInterval. unfold_monad.
  destruct (JsMap.get (heartbeatTimers w) name) as [t |]; [| reflexivity].
  destruct (Nat.eqb t 0); reflexivity.
Qed.

Lemma stopHeartbeat_wf name w :
  wf w ->
  wf (exec (stopHeartbeat name) w) /\
  JsMap.get (heartbeatTimers (exec (stopHeartbeat name) w)) name = None /\
  registry (exec (stopHeartbeat name) w) = registry w.
Proof.
  intros Hwf. pose proof (stopHeartbeat_core name w) as Hcore.
  split; [| split; [| apply stopHeartbeat_keeps_registry]].
  - unfold wf in *. unfold core in Hcore.
    destruct (JsMap.get (heartbeatTimers w) name) as [t |] eqn:Hget.
    + pose proof (wf_timer_positive _ _ _ _ _ _ _ Hwf Hget) as Hpos.
      destruct (Nat.eqb_spec t 0); [lia |].
      injection Hcore as -> -> -> -> ->. apply wf_stop; assumption.
    + injection Hcore as -> -> -> -> ->. exact Hwf.
  - unfold core in Hcore.
    destruct (JsMap.get (heartbeatTimers w) name) as [t |] eqn:Hget.
    + pose proof (wf_timer_positive _ _ _ _ _ _ _ Hwf Hget) as Hpos.
      destruct (Nat.eqb_spec t 0); [lia |].
      injection Hcore as _ _ -> _ _. apply get_delete_eq.
    + injection Hcore as _ _ -> _ _. exact Hget.
Qed.

Lemma startHeartbeat_core name w :
  core (exec (startHeartbeat name) w) =
  match JsMap.get (connections w) name with
  | Some id =>
      (sockets w, connections w, JsMap.set (heartbeatTimers w) name (next_timer w),
       intervals w ++ [(next_timer w, heartbeatInterval w, Beat name id)],
       S (next_timer w))
  | None => core w
  end.
Proof.
  unfold startHeartbeat, setInterval. unfold_monad.
  destruct (JsMap.get (connections w) name); reflexivity.
Qed.

Lemma startHeartbeat_wf name w :
  wf w ->
  (forall id, JsMap.get (connections w) name = Some id ->
              exists s, sockets w !! id = Some s /\ readyState s = OPEN) ->
  wf (exec (startHeartbeat name) w).
Proof.
  intros Hwf Hopen. pose proof (startHeartbeat_core name w) as Hcore.
  unfold wf in *. unfold core in Hcore.
  destruct (JsMap.get (connections w) name) as [id |] eqn:Hget;
    injection Hcore as -> -> -> -> ->; [| exact Hwf].
  destruct (Hopen id eq_refl) as (s & Hs & Hr).
  eapply wf_start; eassumption.
Qed.

Lemma disconnect_core name w id :
  JsMap.get (connections w) name = Some id ->
  core (exec (disconnect name) w) =
  (begin_closing id (sockets (exec (stopHeartbeat name) w)),
   JsMap.delete (connections (exec (stopHeartbeat name) w)) name,
   heartbeatTimers (exec (stopHeartbeat name) w),
   intervals (exec (stopHeartbeat name) w),
   next_timer (exec (stopHeartbeat name) w)).
Proof.
  intros Hget. unfold disconnect.
  rewrite exec_bind. cbn [result gets fst exec snd]. rewrite Hget.
  rewrite exec_bind, stopHeartbeat_returns. reflexivity.
Qed.

Lemma disconnect_wf name w :
  wf w ->
  wf (exec (disconnect name) w) /\
  JsMap.get (connections (exec (disconnect name) w)) name = None /\
  JsMap.get (heartbeatTimers (exec (disconnect name) w)) name = None.
Proof.
  intros Hwf.
  destruct (JsMap.get (connections w) name) as [id |] eqn:Hget.
  - pose proof (disconnect_core name w id Hget) as Hcore.
    destruct (stopHeartbeat_wf name w Hwf) as (Hwf1 & Hnone & Hreg).
    set (w1 := exec (stopHeartbeat name) w) in *. clearbody w1.
    unfold registry in Hreg. injection Hreg as Hs1 Hc1.
    rewrite <- Hc1 in Hget.
    unfold core in Hcore. injection Hcore as Hs Hc Hh Hi Hn.
    unfold wf. rewrite Hs, Hc, Hh, Hi, Hn.
    split; [| split; [apply get_delete_eq | exact Hnone]].
    destruct (proj1 (proj2 Hwf1) name id Hget) as (s & Hsock & Hname).
    apply wf_unregister with (id := id).
    + eapply wf_begin_closing; [exact Hwf1 | exact Hsock |]. rewrite Hname. exact Hnone.
    + exact Hget.
    + intros s'. apply begin_closing_not_live.
    + exact Hnone.
  - assert (Hnoop : exec (disconnect name) w = w).
    { unfold disconnect. rewrite exec_bind. cbn [result gets fst exec snd].
      rewrite Hget. reflexivity. }
    rewrite Hnoop. split; [exact Hwf |]. split; [exact Hget |].
    destruct (JsMap.get (heartbeatTimers w) name) as [t |] eqn:Hhb; [| reflexivity].
    destruct (proj2 (proj2 (proj2 (proj2 Hwf))) name t Hhb) as (id & s & Hc & _).
    congruence.
Qed.

(** [connect] after its teardown of the registered transport. *)
Definition connect_tail (name url : string) (h : handlers) : M unit :=
  updateStatus "connecting" "Connecting...";;
  try_catch
    (ws ← new_WebSocket url name h;
     modify (set_connections (fun m => JsMap.set m name ws));;
     modify (set_messageHandlers (fun m => JsMap.set m name h)))
    (fun error =>
       console_error ("Failed to create WebSocket " +:+ name +:+ ":") [error];;
       updateStatus "disconnected" "Connection Failed";;
       call_if_set (onError h) [error]).

Lemma connect_split name url h w :
  exec (connect name url h) w =
  exec (connect_tail name url h)
       (if JsMap.has (connections w) name then exec (disconnect name) w else w).
Proof.
  unfold connect. rewrite exec_bind. cbn [result gets fst exec snd].
  rewrite exec_bind.
  destruct (JsMap.has (connections w) name); cbn [when].
  - rewrite disconnect_returns. reflexivity.
  - reflexivity.
Qed.

Lemma connect_tail_wf name url h w :
  wf w -> JsMap.get (connections w) name = None ->
  wf (exec (connect_tail name url h) w).
Proof.
  intros Hwf Hnone. unfold connect_tail.
  rewrite exec_bind, updateStatus_returns.
  pose proof (updateStatus_grows "connecting" "Connecting..." w) as Hg.
  pose proof (wf_grows _ _ Hg Hwf) as Hwf2.
  destruct Hg as (_ & Hc2 & _). rewrite <- Hc2 in Hnone.
  set (w2 := exec (updateStatus "connecting" "Connecting...") w) in *. clearbody w2.
  destruct (WebSocket_throws url) as [e |] eqn:Hctor.
  - eapply wf_grows; [| exact Hwf2].
    apply grows_try_catch.
    + intros w'. unfold new_WebSocket, exec. unfold_monad. rewrite Hctor.
      apply grows_refl.
    + intros e'. solve_grows.
  - unfold try_catch, new_WebSocket, exec. unfold_monad. rewrite Hctor.
    unfold wf. simpl. apply wf_register; assumption.
Qed.

Lemma connect_wf name url h w : wf w -> wf (exec (connect name url h) w).
Proof.
  intros Hwf. rewrite connect_split. apply connect_tail_wf.
  - destruct (JsMap.has (connections w) name); [apply disconnect_wf |]; exact Hwf.
  - unfold JsMap.has.
    destruct (JsMap.get (connections w) name) eqn:Hget; [| exact Hget].
    apply disconnect_wf. exact Hwf.
Qed.

(** The keys of the registry are distinct. *)
Definition unique_names (w : world) : Prop := NoDup (JsMap.keys (connections w)).

Lemma keys_delete_subset {V} (m : JsMap.t V) (k k' : string) :
  k' ∈ JsMap.keys (JsMap.delete m k) -> k' ∈ JsMap.keys m.
Proof.
  unfold JsMap.keys. induction m as [| [k0 v0] m IH]; simpl; [trivial |].
  destruct (String.eqb k0 k); simpl.
  - intros H. right. apply IH, H.
  - intros [-> | H]%elem_of_cons; [left | right; apply IH, H].
Qed.

Lemma NoDup_keys_delete {V} (m : JsMap.t V) (k : string) :
  NoDup (JsMap.keys m) -> NoDup (JsMap.keys (JsMap.delete m k)).
Proof.
  unfold JsMap.keys. induction m as [| [k0 v0] m IH]; simpl; [trivial |].
  intros [Hnotin Hnd]%NoDup_cons. destruct (String.eqb k0 k); simpl; [auto |].
  apply NoDup_cons. split; [| auto].
  intros Hin. apply Hnotin. exact (keys_delete_subset m k k0 Hin).
Qed.

Lemma keys_set_subset {V} (m : JsMap.t V) (k k' : string) (v : V) :
  k' ∈ JsMap.keys (JsMap.set m k v) -> k' = k \/ k' ∈ JsMap.keys m.
Proof.
  unfold JsMap.keys. induction m as [| [k0 v0] m IH]; simpl.
  - intros ->%list_elem_of_singleton. auto.
  - destruct (String.eqb_spec k0 k) as [-> | Hne]; simpl.
    + intros H. right. exact H.
    + intros [-> | H]%elem_of_cons; [right; left |].
      destruct (IH H) as [-> | Hin]; [auto | right; right; exact Hin].
Qed.

Lemma NoDup_keys_set {V} (m : JsMap.t V) (k : string) (v : V) :
  NoDup (JsMap.keys m) -> NoDup (JsMap.keys (JsMap.set m k v)).
Proof.
  unfold JsMap.keys. induction m as [| [k0 v0] m IH]; simpl.
  - intros _. apply NoDup_singleton.
  - intros [Hnotin Hnd]%NoDup_cons.
    destruct (String.eqb_spec k0 k) as [-> | Hne]; simpl.
    + apply NoDup_cons. auto.
    + apply NoDup_cons. split; [| auto].
      intros Hin. destruct (keys_set_subset m k k0 v Hin); [congruence | auto].
Qed.

Lemma get_of_entry {V} (m : JsMap.t V) (k : string) (v : V) :
  NoDup (JsMap.keys m) -> (k, v) ∈ m -> JsMap.get m k = Some v.
Proof.
  unfold JsMap.keys. induction m as [| [k0 v0] m IH]; simpl.
  - intros _ H. inversion H.
  - intros [Hnotin Hnd]%NoDup_cons [[= <- <-] | Hin]%elem_of_cons.
    + rewrite String.eqb_refl. reflexivity.
    + destruct (String.eqb_spec k0 k) as [-> | Hne]; [| auto].
      exfalso. apply Hnotin. apply list_elem_of_fmap. exists (k, v). auto.
Qed.

Lemma entry_of_get {V} (m : JsMap.t V) (k : string) (v : V) :
  JsMap.get m k = Some v -> (k, v) ∈ m.
Proof.
  induction m as [| [k0 v0] m IH]; simpl; [discriminate |].
  destruct (String.eqb_spec k0 k) as [-> | Hne].
  - intros [= ->]. left.
  - intros H. right. auto.
Qed.

Lemma reachable_unique_names w : reachable w -> unique_names w.
Proof.
  apply reachable_preserves.
  - unfold registry, unique_names. intros w1 w2 Heq. injection Heq as _ ->. trivial.
  - intros name url h w' Hinv. unfold unique_names.
    pose proof (connect_registry name url h w') as Hreg. cbv zeta in Hreg.
    unfold registry in Hreg.
    destruct (WebSocket_throws url); injection Hreg as _ ->.
    + apply NoDup_keys_delete, Hinv.
    + apply NoDup_keys_set, NoDup_keys_delete, Hinv.
  - intros name w' Hinv. unfold unique_names.
    pose proof (disconnect_registry name w') as Hd. unfold registry in Hd.
    destruct (JsMap.get (connections w') name); injection Hd as _ ->.
    + apply NoDup_keys_delete, Hinv.
    + exact Hinv.
  - intros id s w' Hs _ Hinv. exact Hinv.
  - intros id s w' Hs Hinv. exact Hinv.
  - constructor.
Qed.

Lemma result_console_log msg args w : result (console_log msg args) w = Normal tt.
Proof. reflexivity. Qed.

Lemma exec_console_log msg args w :
  exec (console_log msg args) w = emit (Console_log msg args) w.
Proof. reflexivity. Qed.

Lemma ws_onopen_core name h w :
  core (exec (ws_onopen name h) w) = core (exec (startHeartbeat name) w).
Proof.
  unfold ws_onopen, startHeartbeat, setInterval. unfold_monad. simpl.
  destruct (JsMap.get (connections w) name); simpl;
    destruct (onConnect h) as [cb |]; simpl; reflexivity.
Qed.

Lemma opens_wf id s w :
  wf w -> sockets w !! id = Some s -> readyState s = CONNECTING ->
  wf (deliver (Socket_opens id) w).
Proof.
  intros Hwf Hs Hr. cbn [deliver]. rewrite Hs, Hr.
  assert (Hlt : (id < length (sockets w))%nat) by (eapply lookup_lt_Some; exact Hs).
  assert (Hwf0 : wf (set_readyState id OPEN w)).
  { unfold wf. simpl. rewrite Hs.
    eapply wf_set_readyState; [exact Hwf | exact Hs | | auto].
    unfold is_live. rewrite Hr. trivial. }
  eapply wf_core; [apply ws_onopen_core |].
  apply startHeartbeat_wf; [exact Hwf0 |].
  intros id' Hget. simpl in Hget.
  assert (id' = id) as ->.
  { pose proof (proj1 Hwf id s Hs) as Hreg. unfold is_live in Hreg.
    rewrite Hr in Hreg. specialize (Hreg eq_refl). congruence. }
  exists (with_readyState OPEN s). simpl. rewrite Hs.
  rewrite list_lookup_insert_eq by exact Hlt. auto.
Qed.

Lemma closes_wf id s code reason w :
  wf w -> sockets w !! id = Some s -> readyState s <> CLOSED ->
  wf (deliver (Socket_closes id code reason) w).
Proof.
  intros Hwf Hs Hr.
  assert (Hdel : deliver (Socket_closes id code reason) w =
                 exec (ws_onclose (ws_name s) (ws_url s) (ws_handlers s) code reason)
                      (set_readyState id CLOSED w)).
  { simpl. rewrite Hs. destruct (readyState s); congruence. }
  rewrite Hdel. unfold ws_onclose.
  rewrite exec_bind, result_console_log, exec_console_log.
  rewrite exec_bind, stopHeartbeat_returns.
  set (w0 := emit (Console_log ("WebSocket " +:+ ws_name s +:+ " closed:")
                     [JNum code; JStr reason]) (set_readyState id CLOSED w)).
  assert (Hwf1 : wf (exec (stopHeartbeat (ws_name s)) w0)).
  { eapply wf_core with
      (w := set_readyState id CLOSED (exec (stopHeartbeat (ws_name s)) w)).
    - pose proof (stopHeartbeat_core (ws_name s) w0) as H0.
      pose proof (stopHeartbeat_core (ws_name s) w) as H1.
      change (heartbeatTimers w0) with (heartbeatTimers w) in H0.
      unfold core in *.
      destruct (JsMap.get (heartbeatTimers w) (ws_name s)) as [t |];
        [destruct (Nat.eqb t 0) |];
        injection H0 as E1 E2 E3 E4 E5; injection H1 as F1 F2 F3 F4 F5;
        cbn [sockets connections heartbeatTimers intervals next_timer
             set_readyState set_sockets];
        rewrite E1, E2, E3, E4, E5, F1, F2, F3, F4, F5; reflexivity.
    - destruct (stopHeartbeat_wf (ws_name s) w Hwf) as (Hwf' & Hnone & Hreg).
      unfold registry in Hreg. injection Hreg as Hs' _.
      unfold wf. simpl. rewrite Hs', Hs.
      eapply wf_set_readyState.
      + rewrite <- Hs'. exact Hwf'.
      + exact Hs.
      + discriminate.
      + right. exact Hnone. }
  eapply wf_grows; [| exact Hwf1].
  match goal with
  | |- grows ?a (exec ?m ?a) => assert (Hg : steps grows m) by solve_grows
  end.
  apply Hg.
Qed.

Lemma tick_wf job w : wf w -> wf (exec (heartbeat_tick job) w).
Proof.
  intros Hwf. unfold heartbeat_tick.
  rewrite exec_bind. cbn [result ws_readyState gets fst exec snd].
  destruct (ready_state_eqb _ OPEN).
  - eapply wf_grows; [apply ws_send_grows | exact Hwf].
  - apply stopHeartbeat_wf, Hwf.
Qed.

Lemma for_each_inv {A} (I : world -> Prop) (l : list A) (f : A -> M unit) :
  (forall x w, x ∈ l -> I w -> I (exec (f x) w)) ->
  forall w, I w -> I (exec (for_each l f) w).
Proof.
  induction l as [| x l IH]; intros Hf w Hw; [exact Hw |].
  simpl. rewrite exec_bind.
  assert (Hx : I (exec (f x) w)) by (apply Hf; [left | exact Hw]).
  destruct (result (f x) w); [| exact Hx].
  apply IH; [| exact Hx]. intros y w' Hy. apply Hf. right. exact Hy.
Qed.

(** Clearing the intervals named by a list of entries, one after the other. *)
Definition drop_all (entries : list (string * nat))
    (ints : list (nat * Z * interval_job)) : list (nat * Z * interval_job) :=
  fold_left (fun acc entry => drop_timer (snd entry) acc) entries ints.

Lemma clear_all_exec (entries : list (string * nat)) (w : world) :
  result (for_each entries (fun entry => clearInterval (snd entry))) w = Normal tt /\
  core (exec (for_each entries (fun entry => clearInterval (snd entry))) w) =
  (sockets w, connections w, heartbeatTimers w, drop_all entries (intervals w),
   next_timer w).
Proof.
  revert w. induction entries as [| [n t] entries IH]; intros w; [split; reflexivity |].
  cbn [for_each]. unfold result. rewrite exec_bind.
  unfold mbind, M_bind. cbn [clearInterval modify result fst exec snd].
  destruct (IH (emit (Clear_interval t)
                  (set_intervals (filter (fun t0 => negb (Nat.eqb (fst (fst t0)) t))) w)))
    as [Hres Hcore].
  unfold result, exec in *. split.
  - exact Hres.
  - exact Hcore.
Qed.

Lemma pause_core w :
  core (exec pauseHeartbeats w) =
  (sockets w, connections w, JsMap.empty,
   drop_all (heartbeatTimers w) (intervals w), next_timer w).
Proof.
  unfold pauseHeartbeats. rewrite exec_bind. cbn [result gets fst exec snd].
  destruct (clear_all_exec (heartbeatTimers w) w) as [Hres Hcore].
  rewrite exec_bind, Hres. rewrite exec_modify.
  unfold core in *. injection Hcore as Hs Hc _ Hi Hn.
  simpl. rewrite Hs, Hc, Hi, Hn. reflexivity.
Qed.

Lemma Forall_drop_all (P : nat * Z * interval_job -> Prop) entries ints :
  Forall P ints -> Forall P (drop_all entries ints).
Proof.
  revert ints. induction entries as [| e entries IH]; intros ints H; [exact H |].
  simpl. apply IH, Forall_drop_timer, H.
Qed.

Lemma pause_wf w : wf w -> wf (exec pauseHeartbeats w).
Proof.
  intros Hwf. pose proof (pause_core w) as Hcore. unfold core in Hcore.
  injection Hcore as Hs Hc Hh Hi Hn. unfold wf. rewrite Hs, Hc, Hh, Hi, Hn.
  eapply wf_no_heartbeats; [exact Hwf |].
  apply Forall_drop_all. exact (proj1 (proj2 (proj2 (proj2 Hwf)))).
Qed.

Lemma resume_wf w : wf w -> unique_names w -> wf (exec resumeHeartbeats w).
Proof.
  intros Hwf Huniq. unfold resumeHeartbeats.
  rewrite exec_bind. cbn [result gets fst exec snd].
  apply (for_each_inv (fun w' => wf w' /\ registry w' = registry w)); [| auto].
  intros [name id] w' Hin [Hwf' Hreg]. cbn [fst snd].
  rewrite exec_bind. cbn [result ws_readyState gets fst exec snd].
  unfold registry in Hreg. injection Hreg as Hs Hc.
  assert (Hskip : wf (exec (mret tt) w') /\ registry (exec (mret tt) w') = registry w).
  { split; [exact Hwf' | unfold registry; change (exec (mret tt) w') with w'; congruence]. }
  destruct (sockets w' !! id) as [s |] eqn:Hsock; [| exact Hskip].
  destruct (readyState s) eqn:Hr; cbn [ready_state_eqb]; try exact Hskip.
  split.
  - apply startHeartbeat_wf; [exact Hwf' |].
    intros id' Hget. rewrite Hc in Hget.
    rewrite (get_of_entry _ _ _ Huniq Hin) in Hget. injection Hget as <-.
    exists s. auto.
  - rewrite startHeartbeat_keeps_registry. unfold registry. congruence.
Qed.

Lemma unload_wf w : wf w -> wf (exec on_beforeunload w).
Proof.
  intros Hwf. unfold on_beforeunload.
  rewrite exec_bind. cbn [result gets fst exec snd].
  apply (for_each_inv wf); [| exact Hwf].
  intros entry w' _ Hw'. apply disconnect_wf, Hw'.
Qed.

Lemma run_timeout_wf job w : wf w -> wf (exec (run_timeout job) w).
Proof.
  intros Hwf. destruct job as [| name url h attempts]; simpl.
  - exact Hwf.
  - rewrite exec_bind. cbn [result modify fst]. rewrite exec_modify.
    apply connect_wf. exact Hwf.
Qed.

Lemma deliver_wf ev w : wf w -> unique_names w -> wf (deliver ev w).
Proof.
  intros Hwf Huniq. destruct ev.
  - apply connect_wf, Hwf.
  - apply disconnect_wf, Hwf.
  - eapply wf_grows; [apply send_grows | exact Hwf].
  - eapply wf_grows; [apply subscribe_grows | exact Hwf].
  - destruct (sockets w !! id) as [s |] eqn:Hs; [| simpl; rewrite Hs; exact Hwf].
    destruct (readyState s) eqn:Hr;
      try (simpl; rewrite Hs, Hr; exact Hwf).
    eapply opens_wf; eassumption.
  - simpl. destruct (sockets w !! id) as [s |]; [| exact Hwf].
    destruct (readyState s); try exact Hwf.
    eapply wf_grows; [apply ws_onmessage_grows | exact Hwf].
  - simpl. destruct (sockets w !! id) as [s |]; [| exact Hwf].
    destruct (readyState s); try exact Hwf;
      (eapply wf_grows; [apply ws_onerror_grows | exact Hwf]).
  - destruct (sockets w !! id) as [s |] eqn:Hs; [| simpl; rewrite Hs; exact Hwf].
    destruct (readyState s) eqn:Hr;
      try (eapply closes_wf; [exact Hwf | exact Hs | congruence]).
    simpl. rewrite Hs, Hr. exact Hwf.
  - simpl. destruct (find_timer (timeouts w) tid) as [job |]; [| exact Hwf].
    apply run_timeout_wf. exact Hwf.
  - simpl. destruct (find_timer (intervals w) tid) as [job |]; [| exact Hwf].
    apply tick_wf, Hwf.
  - apply pause_wf, Hwf.
  - apply resume_wf; assumption.
  - apply unload_wf, Hwf.
Qed.

Lemma initial_wf : wf initial.
Proof.
  unfold wf, wf_parts. cbn.
  split; [intros id s H; destruct id; discriminate |].
  split; [intros name id; discriminate |].
  split; [vm_compute; lia |].
  split; [constructor | intros name t; discriminate].
Qed.

Lemma reachable_wf w : reachable w -> wf w.
Proof.
  induction 1 as [| w ev Hreach IH]; [exact initial_wf |].
  apply deliver_wf; [exact IH | apply reachable_unique_names, Hreach].
Qed.

(** ** [connect] and [disconnect], name by name *)

Lemma disconnect_exec name w id :
  JsMap.get (connections w) name = Some id ->
  exec (disconnect name) w =
  set_reconnectAttempts (fun m => JsMap.delete m name)
    (set_messageHandlers (fun m => JsMap.delete m name)
       (set_connections (fun m => JsMap.delete m name)
          (emit (Close_called id 1000 "Intentional disconnect")
             (set_sockets (begin_closing id) (exec (stopHeartbeat name) w))))).
Proof.
  intros Hget. unfold disconnect.
  rewrite exec_bind. cbn [result gets fst exec snd]. rewrite Hget.
  rewrite exec_bind, stopHeartbeat_returns. reflexivity.
Qed.

Lemma disconnect_unknown name w :
  JsMap.get (connections w) name = None -> disconnect name w = (Normal tt, w).
Proof.
  intros Hget. unfold disconnect. unfold_monad. rewrite Hget. reflexivity.
Qed.

Lemma connect_tail_success name url h w :
  WebSocket_throws url = None ->
  let w2 := exec (updateStatus "connecting" "Connecting...") w in
  exec (connect_tail name url h) w =
  set_messageHandlers (fun m => JsMap.set m name h)
    (set_connections (fun m => JsMap.set m name (length (sockets w2)))
       (emit (New_WebSocket (length (sockets w2)) url)
          (set_sockets (fun ss => ss ++ [Socket url CONNECTING name h]) w2))).
Proof.
  intros Hctor. cbv zeta. unfold connect_tail.
  rewrite exec_bind, updateStatus_returns.
  unfold try_catch, new_WebSocket. unfold exec at 1. unfold_monad.
  rewrite Hctor. reflexivity.
Qed.

Lemma updateStatus_exec status message w :
  String.eqb status "connected" = false ->
  exec (updateStatus status message) w =
  set_statusIndicator
    (fun ind => match ind with
                | Some _ => Some (Indicator status message false)
                | None => None
                end) w.
Proof.
  intros Hstatus. unfold updateStatus. unfold_monad. rewrite Hstatus.
  destruct w as [c a m d i t mh ind ss ts ints nt ls tr]. simpl.
  destruct ind; reflexivity.
Qed.

(** X2.  When the host accepts the url, [connect] registers under the name
    a new transport for that url, connecting and carrying the given
    handlers; the status says connecting, and the attempt counter of a name
    that was registered is gone. *)
Theorem connect_registers (name url : string) (h : handlers) (w : world) :
  WebSocket_throws url = None ->
  let w' := exec (connect name url h) w in
  JsMap.get (connections w') name = Some (length (sockets w)) /\
  sockets w' !! length (sockets w) = Some (Socket url CONNECTING name h) /\
  length (sockets w') = S (length (sockets w)) /\
  JsMap.get (messageHandlers w') name = Some h /\
  (JsMap.has (connections w) name = true ->
   JsMap.get (reconnectAttempts w') name = None) /\
  statusIndicator w' =
  match statusIndicator w with
  | Some _ => Some (Indicator "connecting" "Connecting..." false)
  | None => None
  end.
Proof.
  intros Hctor. cbv zeta. rewrite connect_split.
  set (w1 := if JsMap.has (connections w) name then exec (disconnect name) w else w).
  rewrite (connect_tail_success name url h w1 Hctor). cbv zeta.
  rewrite (updateStatus_exec "connecting" "Connecting..." w1 eq_refl).
  cbn [connections sockets messageHandlers reconnectAttempts statusIndicator
       set_messageHandlers set_connections emit set_sockets set_statusIndicator].
  assert (H1 : length (sockets w1) = length (sockets w) /\
               statusIndicator w1 = statusIndicator w /\
               (JsMap.has (connections w) name = true ->
                JsMap.get (reconnectAttempts w1) name = None)).
  { unfold w1, JsMap.has.
    destruct (JsMap.get (connections w) name) as [id |] eqn:Hget.
    - rewrite (disconnect_exec name w id Hget).
      cbn [connections sockets messageHandlers reconnectAttempts statusIndicator
           set_messageHandlers set_connections emit set_sockets
           set_reconnectAttempts].
      pose proof (stopHeartbeat_keeps_backoff name w) as Hk.
      injection Hk as _ _ _ Hst.
      pose proof (stopHeartbeat_keeps_registry name w) as Hr.
      unfold registry in Hr. injection Hr as Hs _.
      rewrite length_begin_closing, Hs, Hst.
      split; [reflexivity |]. split; [reflexivity |].
      intros _. apply get_delete_eq.
    - split; [reflexivity |]. split; [reflexivity | discriminate]. }
  destruct H1 as (Hlen & Hst & Hatt). rewrite Hlen, Hst.
  split; [apply get_set_eq |].
  split; [rewrite lookup_app_r by lia; rewrite Hlen, Nat.sub_diag; reflexivity |].
  split; [rewrite length_app, Hlen; simpl; lia |].
  split; [apply get_set_eq |].
  split; [exact Hatt | reflexivity].
Qed.

(** What the manager keeps under one name. *)
Definition slot (w : world) (name : string) :=
  (JsMap.get (connections w) name, JsMap.get (messageHandlers w) name,
   JsMap.get (reconnectAttempts w) name, JsMap.get (heartbeatTimers w) name).

Lemma stopHeartbeat_other name name' w :
  name <> name' ->
  slot (exec (stopHeartbeat name) w) name' = slot w name' /\
  sockets (exec (stopHeartbeat name) w) = sockets w.
Proof.
  intros Hne. unfold stopHeartbeat, clearInterval, slot. unfold_monad.
  destruct (JsMap.get (heartbeatTimers w) name) as [t |]; [| auto].
  destruct (Nat.eqb t 0); simpl; [auto |].
  rewrite get_delete_ne by exact Hne. auto.
Qed.

Lemma begin_closing_other id id' ss :
  id' <> id -> begin_closing id ss !! id' = ss !! id'.
Proof.
  intros Hne. unfold begin_closing. destruct (ss !! id) as [s |]; [| reflexivity].
  destruct (readyState s); try reflexivity;
    apply list_lookup_insert_ne; congruence.
Qed.

Lemma disconnect_other name name' w :
  name <> name' ->
  slot (exec (disconnect name) w) name' = slot w name' /\
  length (sockets (exec (disconnect name) w)) = length (sockets w) /\
  forall id', JsMap.get (connections w) name <> Some id' ->
              sockets (exec (disconnect name) w) !! id' = sockets w !! id'.
Proof.
  intros Hne.
  destruct (JsMap.get (connections w) name) as [id |] eqn:Hget.
  - rewrite (disconnect_exec name w id Hget).
    destruct (stopHeartbeat_other name name' w Hne) as [Hslot Hs].
    unfold slot in *.
    cbn [connections sockets messageHandlers reconnectAttempts heartbeatTimers
         set_messageHandlers set_connections emit set_sockets set_reconnectAttempts].
    rewrite !get_delete_ne by exact Hne. rewrite Hs.
    split; [exact Hslot |]. split; [apply length_begin_closing |].
    intros id' Hid. apply begin_closing_other. congruence.
  - rewrite (f_equal snd (disconnect_unknown name w Hget) : exec _ _ = w). auto.
Qed.


(** X4.  [disconnect] of a name that is not registered does nothing, and so
    does a second [disconnect] of the same name. *)
Theorem disconnect_idempotent (name : string) (w : world) :
  (JsMap.has (connections w) name = false -> disconnect name w = (Normal tt, w)) /\
  disconnect name (exec (disconnect name) w) = (Normal tt, exec (disconnect name) w).
Proof.
  split.
  - unfold JsMap.has. intros Hhas. apply disconnect_unknown.
    destruct (JsMap.get (connections w) name); [discriminate | reflexivity].
  - apply disconnect_unknown.
    destruct (JsMap.get (connections w) name) as [id |] eqn:Hget.
    + rewrite (disconnect_exec name w id Hget). simpl. apply get_delete_eq.
    + rewrite (f_equal snd (disconnect_unknown name w Hget) : exec _ _ = w).
      exact Hget.
Qed.

(** X5.  After any sequence of events, [disconnect] of a registered name
    leaves nothing under that name: no registered transport, handlers,
    attempt counter or heartbeat timer; the heartbeat interval of the name
    is cleared; the transport was asked to close with code 1000 and is not
    live. *)
Theorem disconnect_clears_name (evs : list event) (name : string) (id : nat) :
  let w := run evs initial in
  JsMap.get (connections w) name = Some id ->
  let w' := exec (disconnect name) w in
  slot w' name = (None, None, None, None) /\
  (forall s, sockets w' !! id = Some s -> is_live s = false) /\
  (forall t, JsMap.get (heartbeatTimers w) name = Some t ->
             find_timer (intervals w') t = None) /\
  trace w' = trace w ++ stopHeartbeat_effects w name
                     ++ [Close_called id 1000 "Intentional disconnect"].
Proof.
  intros w Hget w'.
  assert (Hwf : wf w) by (apply reachable_wf, run_reachable; constructor).
  pose proof (stopHeartbeat_core name w) as Hcore.
  destruct (stopHeartbeat_wf name w Hwf) as (_ & Hnone & _).
  split; [| split; [| split]].
  - unfold w', slot. rewrite (disconnect_exec name w id Hget).
    cbn [connections sockets messageHandlers reconnectAttempts heartbeatTimers
         set_messageHandlers set_connections emit set_sockets set_reconnectAttempts].
    rewrite !get_delete_eq, Hnone. reflexivity.
  - intros s. unfold w'. rewrite (disconnect_exec name w id Hget).
    cbn [sockets set_messageHandlers set_connections emit set_sockets
         set_reconnectAttempts].
    apply begin_closing_not_live.
  - intros t Ht. unfold w'. rewrite (disconnect_exec name w id Hget).
    cbn [intervals set_messageHandlers set_connections emit set_sockets
         set_reconnectAttempts].
    rewrite Ht in Hcore.
    pose proof (wf_timer_positive _ _ _ _ _ _ _ Hwf Ht) as Hpos.
    destruct (Nat.eqb_spec t 0); [lia |].
    unfold core in Hcore. injection Hcore as _ _ _ -> _.
    apply find_timer_drop_same.
  - apply disconnect_trace. exact Hget.
Qed.

(** ** Transport events *)

Lemma ws_onopen_fields name h w :
  reconnectAttempts (exec (ws_onopen name h) w)
  = JsMap.set (reconnectAttempts w) name 0 /\
  maxReconnectAttempts (exec (ws_onopen name h) w) = maxReconnectAttempts w /\
  reconnectDelay (exec (ws_onopen name h) w) = reconnectDelay w /\
  sockets (exec (ws_onopen name h) w) = sockets w.
Proof.
  unfold ws_onopen, startHeartbeat, setInterval. unfold_monad. simpl.
  destruct (JsMap.get (connections w) name); simpl;
    destruct (onConnect h) as [cb |]; simpl; auto.
Qed.

(** X6.  When a transport opens, the attempt counter of its connection is
    set to 0, so that an unexpected closure of the open transport schedules
    the reconnect after exactly the base delay. *)
Theorem open_resets_backoff (w : world) (id : nat) (s : WebSocket)
    (code : Z) (reason : string) :
  sockets w !! id = Some s ->
  readyState s = CONNECTING ->
  code <> 1000 ->
  onDisconnect_returns (ws_handlers s) code reason ->
  0 < maxReconnectAttempts w ->
  let w1 := deliver (Socket_opens id) w in
  JsMap.get (reconnectAttempts w1) (ws_name s) = Some 0 /\
  timeouts (deliver (Socket_closes id code reason) w1) =
  timeouts w1 ++ [(next_timer w1, reconnectDelay w * 2 ^ 0,
                   Reconnect (ws_name s) (ws_url s) (ws_handlers s) 0)].
Proof.
  intros Hs Hr Hcode Hret Hmax w1.
  assert (Hlt : (id < length (sockets w))%nat) by (eapply lookup_lt_Some; exact Hs).
  assert (Hw1 : w1 = exec (ws_onopen (ws_name s) (ws_handlers s))
                          (set_readyState id OPEN w)).
  { unfold w1. cbn [deliver]. rewrite Hs, Hr. reflexivity. }
  destruct (ws_onopen_fields (ws_name s) (ws_handlers s) (set_readyState id OPEN w))
    as (Ha & Hm & Hd & Hss).
  rewrite <- Hw1 in Ha, Hm, Hd, Hss.
  cbn [reconnectAttempts maxReconnectAttempts reconnectDelay sockets
       set_readyState set_sockets] in Ha, Hm, Hd, Hss.
  rewrite Hs in Hss.
  assert (Hzero : JsMap.get (reconnectAttempts w1) (ws_name s) = Some 0)
    by (rewrite Ha; apply get_set_eq).
  split; [exact Hzero |].
  assert (Hs1 : sockets w1 !! id = Some (with_readyState OPEN s)).
  { rewrite Hss. apply list_lookup_insert_eq. exact Hlt. }
  pose proof (closure_outcome w1 id _ code reason Hs1 ltac:(discriminate))
    as [_ Hpath].
  specialize (Hpath Hcode Hret). cbn [ws_name ws_url ws_handlers with_readyState] in Hpath.
  unfold reconnect_path_taken, attempts_or_zero in Hpath.
  rewrite Hzero, Hm, Hd in Hpath.
  destruct (0 >=? maxReconnectAttempts w) eqn:Hge; [lia | exact Hpath].
Qed.

(** An error event of a transport changes nothing in the manager: it
    is written to the console and handed to [onError], and that is all; the
    registry, the counters and the timers stay as they are. *)
Lemma socket_error_is_inert (w : world) (id : nat) (s : WebSocket) :
  sockets w !! id = Some s ->
  readyState s <> CLOSED ->
  deliver (Socket_error id) w =
  emit_all (Console_error ("WebSocket " +:+ ws_name s +:+ " error:") [error_event]
            :: match onError (ws_handlers s) with
               | Some cb => [Invoke (cb_id cb) [error_event]]
               | None => []
               end) w.
Proof.
  intros Hs Hr. cbn [deliver]. rewrite Hs.
  unfold ws_onerror. unfold_monad.
  destruct (readyState s); try congruence;
    destruct (onError (ws_handlers s)) as [cb |]; simpl;
    try destruct (cb_raises cb _); reflexivity.
Qed.

(** Decoded values that carry no properties: primitives and arrays. *)
Definition is_typeless (data : jsval) : bool :=
  match data with
  | JBool _ | JNum _ | JStr _ | JArr _ => true
  | _ => false
  end.

Lemma typeless_matches_nothing (data : jsval) (subs : list (string * callback))
    (source : string) :
  is_typeless data = true -> subscription_calls subs source data = [].
Proof.
  intros Hdata. unfold subscription_calls.
  induction subs as [| [ty cb] subs IH]; [reflexivity |].
  rewrite filter_cons.
  assert (Hty : has_type data ty = false) by (destruct data; try discriminate; reflexivity).
  cbn [fst]. rewrite Hty. destruct (decide (false = true)); [discriminate | exact IH].
Qed.

(** X7.  The frame [null] parses, and reading its type throws: it is logged
    like a frame that does not parse and is dropped.  A frame that decodes
    to a number, a string, a boolean or an array goes to [onMessage] and is
    broadcast, and no subscriber is called for it. *)
Theorem frames_without_type (name : string) (h : handlers) (raw : string)
    (data : jsval) (w : world) :
  JSON_parse raw = Some data ->
  (data = JNull ->
   ws_onmessage name h raw w =
   (Normal tt, emit (Console_error (parse_error_message name) [JErr "TypeError"]) w)) /\
  (is_typeless data = true ->
   onMessage_returns h data ->
   ws_onmessage name h raw w =
   (Normal tt, emit_all (onMessage_call h data ++ [Dispatch name data]) w)).
Proof.
  intros Hparse. split.
  - intros ->. unfold ws_onmessage, parse, get_property. rewrite Hparse.
    unfold_monad. reflexivity.
  - intros Hdata Hret.
    rewrite (frame_is_broadcast name h raw data JUndefined w Hparse).
    + rewrite typeless_matches_nothing by exact Hdata. reflexivity.
    + destruct data; try discriminate; reflexivity.
    + reflexivity.
    + exact Hret.
Qed.

(** ** What is transmitted *)

Lemma send_exactly_when_open_aux (name : string) (data : jsval) (w : world) :
  send name data w =
  match open_socket w name with
  | Some id => (Normal true, emit (Transmit id (JSON_stringify data)) w)
  | None => (Normal false, w)
  end.
Proof.
  unfold send, open_socket, ws_send, ws_readyState. unfold_monad.
  destruct (JsMap.get (connections w) name) as [id |]; [| reflexivity].
  destruct (sockets w !! id) as [s |] eqn:Hs; simpl; [| reflexivity].
  destruct (readyState s) eqn:Hr; simpl; rewrite ?Hs, ?Hr; reflexivity.
Qed.

Definition is_transmit (e : effect) : bool :=
  match e with
  | Transmit _ _ => true
  | _ => false
  end.

(** The trace grows, and by nothing that is a transmission. *)
Definition quiet (w w' : world) : Prop :=
  sockets w' = sockets w /\
  exists es, trace w' = trace w ++ es /\ Forall (fun e => is_transmit e = false) es.

Lemma quiet_refl w : quiet w w.
Proof. split; [reflexivity |]. exists []. split; [symmetry; apply app_nil_r | constructor]. Qed.

Lemma quiet_trace w1 w2 w3 :
  (exists es, trace w2 = trace w1 ++ es /\ Forall (fun e => is_transmit e = false) es) ->
  (exists es, trace w3 = trace w2 ++ es /\ Forall (fun e => is_transmit e = false) es) ->
  exists es, trace w3 = trace w1 ++ es /\ Forall (fun e => is_transmit e = false) es.
Proof.
  intros (es1 & H1 & F1) (es2 & H2 & F2). exists (es1 ++ es2). split.
  - rewrite H2, H1, app_assoc. reflexivity.
  - apply Forall_app. auto.
Qed.

Lemma quiet_trans w1 w2 w3 : quiet w1 w2 -> quiet w2 w3 -> quiet w1 w3.
Proof.
  intros [S1 T1] [S2 T2]. split; [congruence |]. eapply quiet_trace; eassumption.
Qed.

Lemma quiet_bind {A C} (m : M A) (f : A -> M C) :
  steps quiet m -> (forall a, steps quiet (f a)) -> steps quiet (m ≫= f).
Proof. apply steps_bind; first [exact quiet_refl | exact quiet_trans]. Qed.

Lemma quiet_try_catch {A} (body : M A) (handler : jsval -> M A) :
  steps quiet body -> (forall e, steps quiet (handler e)) ->
  steps quiet (try_catch body handler).
Proof. apply steps_try_catch; first [exact quiet_refl | exact quiet_trans]. Qed.

Lemma quiet_when (b : bool) (m : M unit) : steps quiet m -> steps quiet (when b m).
Proof. apply steps_when; first [exact quiet_refl | exact quiet_trans]. Qed.

Lemma quiet_for_each {A} (l : list A) (f : A -> M unit) :
  (forall x, steps quiet (f x)) -> steps quiet (for_each l f).
Proof. apply steps_for_each; first [exact quiet_refl | exact quiet_trans]. Qed.

Ltac quiet_leaf :=
  intros ?; split;
  [ reflexivity
  | first [ exists []; split; [symmetry; apply app_nil_r | constructor]
          | eexists; split; [reflexivity | repeat constructor] ] ].

Ltac quiet_step :=
  first
    [ solve [quiet_leaf]
    | lazymatch goal with
      | |- steps _ (mbind _ _) => apply quiet_bind; [| intros ?]
      | |- steps _ (try_catch _ _) => apply quiet_try_catch; [| intros ?]
      | |- steps _ (when _ _) => apply quiet_when
      | |- steps _ (for_each _ _) => apply quiet_for_each; intros ?
      | |- steps _ (call_if_set ?slot _) => destruct slot; unfold call_if_set
      | |- steps _ (match ?x with _ => _ end) => destruct x
      end
    | solve [auto with quiet] ].

Ltac solve_quiet := repeat quiet_step.

Create HintDb quiet.

(** The same for computations that touch the sockets but transmit nothing. *)
Definition silent (w w' : world) : Prop :=
  exists es, trace w' = trace w ++ es /\ Forall (fun e => is_transmit e = false) es.

Lemma silent_refl w : silent w w.
Proof. exists []. split; [symmetry; apply app_nil_r | constructor]. Qed.

Lemma silent_trans w1 w2 w3 : silent w1 w2 -> silent w2 w3 -> silent w1 w3.
Proof. apply quiet_trace. Qed.

Lemma quiet_silent {A} (m : M A) : steps quiet m -> steps silent m.
Proof. intros Hm w. exact (proj2 (Hm w)). Qed.

Lemma silent_bind {A C} (m : M A) (f : A -> M C) :
  steps silent m -> (forall a, steps silent (f a)) -> steps silent (m ≫= f).
Proof. apply steps_bind; first [exact silent_refl | exact silent_trans]. Qed.

Lemma silent_for_each {A} (l : list A) (f : A -> M unit) :
  (forall x, steps silent (f x)) -> steps silent (for_each l f).
Proof. apply steps_for_each; first [exact silent_refl | exact silent_trans]. Qed.

Lemma stopHeartbeat_quiet name : steps quiet (stopHeartbeat name).
Proof. unfold stopHeartbeat, clearInterval. solve_quiet. Qed.
#[local] Hint Resolve stopHeartbeat_quiet : quiet.

Lemma startHeartbeat_quiet name : steps quiet (startHeartbeat name).
Proof. unfold startHeartbeat, setInterval. solve_quiet. Qed.
#[local] Hint Resolve startHeartbeat_quiet : quiet.

Lemma updateStatus_quiet status message : steps quiet (updateStatus status message).
Proof. unfold updateStatus, setTimeout. solve_quiet. Qed.
#[local] Hint Resolve updateStatus_quiet : quiet.

Lemma scheduleReconnect_quiet name url h : steps quiet (scheduleReconnect name url h).
Proof. unfold scheduleReconnect, setTimeout. solve_quiet. Qed.
#[local] Hint Resolve scheduleReconnect_quiet : quiet.

Lemma dispatchEvent_quiet ls source data : steps quiet (dispatchEvent ls source data).
Proof.
  induction ls as [| [ty cb] ls IH]; simpl; [apply steps_ret, quiet_refl |].
  unfold subscription_listener, get_property, call. solve_quiet.
Qed.
#[local] Hint Resolve dispatchEvent_quiet : quiet.

Lemma ws_onopen_quiet name h : steps quiet (ws_onopen name h).
Proof. unfold ws_onopen, call. solve_quiet. Qed.

Lemma ws_onmessage_quiet name h raw : steps quiet (ws_onmessage name h raw).
Proof. unfold ws_onmessage, emitEvent, parse, get_property, call. solve_quiet. Qed.

Lemma ws_onerror_quiet name h : steps quiet (ws_onerror name h).
Proof. unfold ws_onerror, call. solve_quiet. Qed.

Lemma ws_onclose_quiet name url h code reason :
  steps quiet (ws_onclose name url h code reason).
Proof. unfold ws_onclose, call. solve_quiet. Qed.

Lemma pauseHeartbeats_quiet : steps quiet pauseHeartbeats.
Proof. unfold pauseHeartbeats, clearInterval. solve_quiet. Qed.

Lemma resumeHeartbeats_quiet : steps quiet resumeHeartbeats.
Proof. unfold resumeHeartbeats, ws_readyState. solve_quiet. Qed.

Lemma disconnect_silent name : steps silent (disconnect name).
Proof.
  intros w. destruct (JsMap.get (connections w) name) as [id |] eqn:Hget.
  - exists (stopHeartbeat_effects w name
            ++ [Close_called id 1000 "Intentional disconnect"]).
    split; [apply disconnect_trace, Hget |].
    apply Forall_app. split; [| repeat constructor].
    unfold stopHeartbeat_effects.
    destruct (JsMap.get (heartbeatTimers w) name) as [t |]; [| constructor].
    destruct (Nat.eqb t 0); repeat constructor.
  - rewrite (f_equal snd (disconnect_unknown name w Hget) : exec _ _ = w).
    apply silent_refl.
Qed.

Lemma connect_silent name url h : steps silent (connect name url h).
Proof.
  intros w. rewrite connect_split.
  apply silent_trans with
    (w2 := if JsMap.has (connections w) name then exec (disconnect name) w else w).
  - destruct (JsMap.has (connections w) name);
      [apply disconnect_silent | apply silent_refl].
  - generalize (if JsMap.has (connections w) name
                then exec (disconnect name) w else w). clear w.
    unfold connect_tail. apply silent_bind.
    + apply quiet_silent, updateStatus_quiet.
    + intros _ w. unfold try_catch, new_WebSocket, exec. unfold_monad.
      destruct (WebSocket_throws url) as [e |].
      * assert (Hh : steps quiet
                  (console_error ("Failed to create WebSocket " +:+ name +:+ ":") [e];;
                   updateStatus "disconnected" "Connection Failed";;
                   call_if_set (onError h) [e]))
          by (unfold call; solve_quiet).
        exact (proj2 (Hh w)).
      * simpl. eexists. split; [reflexivity | repeat constructor].
Qed.

Lemma run_timeout_silent job : steps silent (run_timeout job).
Proof.
  destruct job as [| name url h attempts]; simpl.
  - intros w. exists []. split; [symmetry; apply app_nil_r | constructor].
  - apply silent_bind; [| intros _; apply connect_silent].
    intros w. exists []. split; [symmetry; apply app_nil_r | constructor].
Qed.

Lemma on_beforeunload_silent : steps silent on_beforeunload.
Proof.
  unfold on_beforeunload. apply silent_bind; [intros w; apply silent_refl |].
  intros conns. apply silent_for_each. intros entry. apply disconnect_silent.
Qed.

(** The sockets a frame is handed to are open. *)
Definition transmits_on_open (w : world) (es : list effect) : Prop :=
  forall id frame, Transmit id frame ∈ es ->
                   exists s, sockets w !! id = Some s /\ readyState s = OPEN.

Lemma silent_transmits_on_open w w' :
  silent w w' ->
  exists es, trace w' = trace w ++ es /\ transmits_on_open w es.
Proof.
  intros (es & Htrace & Hall). exists es. split; [exact Htrace |].
  intros id frame Hin. rewrite Forall_forall in Hall.
  specialize (Hall _ Hin). discriminate.
Qed.


(** ** Heartbeats over the life of a connection *)

Lemma tick_pings (w : world) (tid : nat) (job : interval_job) (s : WebSocket) :
  find_timer (intervals w) tid = Some job ->
  sockets w !! hb_ws job = Some s ->
  readyState s = OPEN ->
  deliver (Interval_ticks tid) w =
  emit (Transmit (hb_ws job) (JSON_stringify ping)) w.
Proof.
  intros Hjob Hs Hopen. simpl. rewrite Hjob.
  unfold heartbeat_tick, ws_send, ws_readyState. unfold_monad.
  rewrite Hs, Hopen. simpl. rewrite Hs, Hopen. reflexivity.
Qed.


(** X10.  After any sequence of events, when the host closes a transport the
    heartbeat kept under the name of its connection is stopped: no timer is
    kept under the name afterwards, and the interval that was kept is no
    longer pending. *)
Theorem closure_stops_heartbeat (evs : list event) (id : nat) (s : WebSocket)
    (code : Z) (reason : string) :
  let w := run evs initial in
  sockets w !! id = Some s ->
  readyState s <> CLOSED ->
  let w' := deliver (Socket_closes id code reason) w in
  JsMap.get (heartbeatTimers w') (ws_name s) = None /\
  forall t, JsMap.get (heartbeatTimers w) (ws_name s) = Some t ->
            find_timer (intervals w') t = None.
Proof.
  intros w Hs Hr w'.
  assert (Hwf : wf w) by (apply reachable_wf, run_reachable; constructor).
  assert (Hdel : w' = exec (ws_onclose (ws_name s) (ws_url s) (ws_handlers s) code reason)
                           (set_readyState id CLOSED w)).
  { unfold w'. simpl. rewrite Hs. destruct (readyState s); congruence. }
  rewrite Hdel. unfold ws_onclose.
  rewrite exec_bind, result_console_log, exec_console_log.
  rewrite exec_bind, stopHeartbeat_returns.
  set (w0 := emit (Console_log ("WebSocket " +:+ ws_name s +:+ " closed:")
                     [JNum code; JStr reason]) (set_readyState id CLOSED w)).
  match goal with
  | |- context [exec ?m (exec (stopHeartbeat (ws_name s)) w0)] =>
      assert (Hg : steps grows m) by solve_grows;
      destruct (Hg (exec (stopHeartbeat (ws_name s)) w0)) as (_ & _ & Hh & Hi & _)
  end.
  rewrite Hh, Hi.
  pose proof (stopHeartbeat_core (ws_name s) w0) as Hcore.
  change (heartbeatTimers w0) with (heartbeatTimers w) in Hcore.
  change (intervals w0) with (intervals w) in Hcore.
  unfold core in Hcore.
  destruct (JsMap.get (heartbeatTimers w) (ws_name s)) as [t |] eqn:Hget.
  - pose proof (wf_timer_positive _ _ _ _ _ _ _ Hwf Hget) as Hpos.
    destruct (Nat.eqb_spec t 0); [lia |].
    injection Hcore as _ _ Hh' Hi' _. rewrite Hh', Hi'.
    split; [apply get_delete_eq |].
    intros t' [= <-]. apply find_timer_drop_same.
  - injection Hcore as _ _ Hh' _ _. rewrite Hh'.
    split; [exact Hget | discriminate].
Qed.

Lemma find_timer_drop_none {J} (ts : list (nat * Z * J)) (t t' : nat) :
  find_timer ts t = None -> find_timer (drop_timer t' ts) t = None.
Proof.
  intros Hnone. destruct (decide (t = t')) as [-> | Hne].
  - apply find_timer_drop_same.
  - rewrite find_timer_drop_other by exact Hne. exact Hnone.
Qed.

Lemma find_timer_drop_all_none entries ints t :
  find_timer ints t = None -> find_timer (drop_all entries ints) t = None.
Proof.
  revert ints. induction entries as [| e entries IH]; intros ints H; [exact H |].
  simpl. apply IH, find_timer_drop_none, H.
Qed.

Lemma find_timer_drop_all entries ints name t :
  (name, t) ∈ entries -> find_timer (drop_all entries ints) t = None.
Proof.
  revert ints. induction entries as [| e entries IH]; intros ints Hin.
  - inversion Hin.
  - simpl. apply elem_of_cons in Hin as [<- | Hin].
    + apply find_timer_drop_all_none, find_timer_drop_same.
    + apply IH, Hin.
Qed.

Lemma find_timer_drop_all_other entries ints t :
  (forall name, (name, t) ∉ entries) ->
  find_timer (drop_all entries ints) t = find_timer ints t.
Proof.
  revert ints. induction entries as [| [n t'] entries IH]; intros ints Hout; [reflexivity |].
  simpl. rewrite IH.
  - apply find_timer_drop_other. intros ->. apply (Hout n). left.
  - intros name Hin. apply (Hout name). right. exact Hin.
Qed.

(** X11.  When the page is hidden every heartbeat is stopped and no
    connection is touched: the manager keeps no heartbeat timer afterwards,
    the intervals it kept are no longer pending, every other interval is,
    and the registry and the sockets are as they were. *)
Theorem page_hidden_stops_heartbeats (w : world) :
  let w' := deliver Page_hidden w in
  heartbeatTimers w' = JsMap.empty /\
  registry w' = registry w /\
  (forall name t, JsMap.get (heartbeatTimers w) name = Some t ->
                  find_timer (intervals w') t = None) /\
  (forall t, (forall name, (name, t) ∉ heartbeatTimers w) ->
             find_timer (intervals w') t = find_timer (intervals w) t).
Proof.
  cbv zeta. cbn [deliver].
  pose proof (pause_core w) as Hcore. unfold core in Hcore.
  injection Hcore as Hs Hc Hh Hi _.
  split; [exact Hh |].
  split; [unfold registry; congruence |].
  rewrite Hi. split.
  - intros name t Hget. eapply find_timer_drop_all, entry_of_get, Hget.
  - intros t Hout. apply find_timer_drop_all_other, Hout.
Qed.

(** One turn of the loop of [resumeHeartbeats]. *)
Definition resume_entry (entry : string * nat) : M unit :=
  r ← ws_readyState (snd entry);
  if ready_state_eqb r OPEN then startHeartbeat (fst entry) else mret tt.

Lemma startHeartbeat_returns name w : result (startHeartbeat name) w = Normal tt.
Proof.
  unfold startHeartbeat, setInterval. unfold_monad.
  destruct (JsMap.get (connections w) name); reflexivity.
Qed.

Lemma resume_entry_step entry w :
  result (resume_entry entry) w = Normal tt /\
  registry (exec (resume_entry entry) w) = registry w /\
  (forall name, is_Some (JsMap.get (heartbeatTimers w) name) ->
                is_Some (JsMap.get (heartbeatTimers (exec (resume_entry entry) w)) name)) /\
  (forall s, sockets w !! snd entry = Some s -> readyState s = OPEN ->
             is_Some (JsMap.get (connections w) (fst entry)) ->
             is_Some (JsMap.get (heartbeatTimers (exec (resume_entry entry) w))
                                (fst entry))).
Proof.
  destruct entry as [name id]. unfold resume_entry. cbn [fst snd].
  unfold result. rewrite exec_bind.
  unfold mbind, M_bind. cbn [ws_readyState gets result fst exec snd].
  destruct (sockets w !! id) as [s |] eqn:Hs.
  - destruct (readyState s) eqn:Hr; cbn [ready_state_eqb];
      try (repeat split; [auto | intros s' [= <-]; congruence]).
    pose proof (startHeartbeat_core name w) as Hcore. unfold core in Hcore.
    split; [apply startHeartbeat_returns |].
    split; [apply startHeartbeat_keeps_registry |].
    split.
    + intros name' Hsome.
      destruct (JsMap.get (connections w) name); injection Hcore as _ _ -> _ _;
        [| exact Hsome].
      destruct (String.eqb_spec name name') as [<- | Hne].
      * rewrite get_set_eq. eauto.
      * rewrite get_set_ne by exact Hne. exact Hsome.
    + intros _ _ _ [id' Hget]. rewrite Hget in Hcore.
      injection Hcore as _ _ -> _ _. rewrite get_set_eq. eauto.
  - cbn [ready_state_eqb]. repeat split; [auto | discriminate].
Qed.

Lemma resume_loop (l : list (string * nat)) (w : world) (name : string) :
  is_Some (JsMap.get (heartbeatTimers w) name) \/
  (exists id s, (name, id) ∈ l /\ JsMap.get (connections w) name = Some id /\
                sockets w !! id = Some s /\ readyState s = OPEN) ->
  is_Some (JsMap.get (heartbeatTimers (exec (for_each l resume_entry) w)) name).
Proof.
  revert w. induction l as [| x l IH]; intros w H.
  - destruct H as [H | (id & s & Hin & _)]; [exact H | inversion Hin].
  - cbn [for_each]. rewrite exec_bind.
    destruct (resume_entry_step x w) as (Hres & Hreg & Hstable & Hstart).
    rewrite Hres. apply IH.
    unfold registry in Hreg. injection Hreg as Hs Hc.
    destruct H as [H | (id & s & Hin & Hget & Hsock & Hopen)]; [left; auto |].
    apply elem_of_cons in Hin as [<- | Hin].
    + left. apply (Hstart s); [exact Hsock | exact Hopen | ]. simpl. eauto.
    + right. exists id, s. rewrite Hs, Hc. auto.
Qed.


Lemma get_all_none {V} (m : JsMap.t V) :
  (forall k, JsMap.get m k = None) -> m = [].
Proof.
  destruct m as [| [k v] m]; [reflexivity |].
  intros H. specialize (H k). simpl in H. rewrite String.eqb_refl in H. discriminate.
Qed.

Lemma get_none_of_keys {V} (m : JsMap.t V) (k : string) :
  k ∉ JsMap.keys m -> JsMap.get m k = None.
Proof.
  unfold JsMap.keys. induction m as [| [k0 v0] m IH]; simpl; [reflexivity |].
  intros Hout. destruct (String.eqb_spec k0 k) as [-> | Hne].
  - exfalso. apply Hout. left.
  - apply IH. intros Hin. apply Hout. right. exact Hin.
Qed.

Lemma disconnect_wf_free name w :
  JsMap.get (connections (exec (disconnect name) w)) name = None.
Proof.
  pose proof (disconnect_registry name w) as Hreg. unfold registry in Hreg.
  destruct (JsMap.get (connections w) name) eqn:Hget; injection Hreg as _ ->.
  - apply get_delete_eq.
  - exact Hget.
Qed.

Lemma unload_loop (l : list (string * nat)) (w : world) (k : string) :
  k ∈ map fst l \/ JsMap.get (connections w) k = None ->
  JsMap.get (connections (exec (for_each l (fun entry => disconnect (fst entry))) w)) k
  = None.
Proof.
  revert w. induction l as [| x l IH]; intros w H.
  - destruct H as [H | H]; [inversion H | exact H].
  - cbn [for_each]. rewrite exec_bind, disconnect_returns. apply IH.
    pose proof (disconnect_registry (fst x) w) as Hreg. unfold registry in Hreg.
    assert (Hkeep : JsMap.get (connections w) k = None ->
                    JsMap.get (connections (exec (disconnect (fst x)) w)) k = None).
    { intros Hnone. destruct (JsMap.get (connections w) (fst x));
        injection Hreg as _ ->; [| exact Hnone].
      destruct (JsMap.get (JsMap.delete (connections w) (fst x)) k) eqn:Hd;
        [| reflexivity].
      apply get_delete_Some in Hd. congruence. }
    destruct H as [H | H]; [| right; auto].
    simpl in H. apply elem_of_cons in H as [-> | H]; [| left; exact H].
    right. apply disconnect_wf_free.
Qed.

(** X13.  After any sequence of events, when the page unloads every
    connection is disconnected: the registry is empty, no heartbeat timer is
    kept, and no transport is live. *)
Theorem page_unload_disconnects_all (evs : list event) :
  let w' := deliver Page_unloads (run evs initial) in
  connections w' = [] /\
  heartbeatTimers w' = [] /\
  forall id s, sockets w' !! id = Some s -> is_live s = false.
Proof.
  set (w := run evs initial). intros w'.
  assert (Hreach : reachable w) by (apply run_reachable; constructor).
  assert (Hwf' : wf w') by (apply reachable_wf; constructor; exact Hreach).
  assert (Hconn : connections w' = []).
  { apply get_all_none. intros k. unfold w'. cbn [deliver]. unfold on_beforeunload.
    rewrite exec_bind. cbn [result gets fst exec snd].
    apply unload_loop.
    destruct (decide (k ∈ JsMap.keys (connections w))) as [Hin | Hout].
    - left. exact Hin.
    - right. apply get_none_of_keys, Hout. }
  split; [exact Hconn |]. split.
  - apply get_all_none. intros name.
    destruct (JsMap.get (heartbeatTimers w') name) as [t |] eqn:Ht; [| reflexivity].
    destruct (proj2 (proj2 (proj2 (proj2 Hwf'))) name t Ht) as (id & s & Hc & _).
    rewrite Hconn in Hc. discriminate.
  - intros id s Hs. destruct (is_live s) eqn:Hl; [| reflexivity].
    pose proof (proj1 Hwf' id s Hs Hl) as Hreg.
    rewrite Hconn in Hreg. discriminate.
Qed.

End TIMBWebSocket.

(** * Worked scenarios on the example host *)

Definition demo_deliver : event -> world -> world :=
  deliver demo_parse demo_stringify demo_reject.
Definition demo_run : list event -> world -> world :=
  run demo_parse demo_stringify demo_reject.

Definition feed_url : string := "wss://host/ws/realtime/".

(** The connection [feed] right after [connect], and once it is open. *)
Definition feed_connecting : world :=
  demo_run [Call_connect "feed" feed_url no_handlers] initial.
Definition feed_open : world :=
  demo_run [Call_connect "feed" feed_url no_handlers; Socket_opens 0] initial.

Example send_on_open_feed :
  send demo_stringify "feed" ping feed_open
  = (Normal true, emit (Transmit 0 "ping") feed_open).
Proof. reflexivity. Qed.

Example send_while_connecting :
  send demo_stringify "feed" ping feed_connecting = (Normal false, feed_connecting).
Proof. reflexivity. Qed.

Example send_to_unknown_name :
  send demo_stringify "other" ping feed_open = (Normal false, feed_open).
Proof. reflexivity. Qed.

(** ** The backoff on the example host (C1, C2, C3) *)

(** [connect('feed', url, {})], then three times in a row the transport
    closes with code 1006, the pending reconnect firing in between. *)
Definition three_closures : list event :=
  [Call_connect "feed" feed_url no_handlers;
   Socket_closes 0 1006 ""; Timeout_fires 2;
   Socket_closes 1 1006 ""; Timeout_fires 3;
   Socket_closes 2 1006 ""].

(** C1, the code at three consecutive closures: the three reconnects are
    scheduled with the base delay each, where the doubling of the claim
    gives 3000, 6000 and 12000. *)
Theorem backoff_delay_stays_at_base :
  reconnect_delays "feed" (demo_run three_closures initial) = [3000; 3000; 3000] /\
  reconnect_delays "feed" (demo_run three_closures initial)
  <> [3000 * 2 ^ 0; 3000 * 2 ^ 1; 3000 * 2 ^ 2].
Proof. split; [vm_compute; reflexivity | vm_compute; discriminate]. Qed.

(** After [connect] the transport fails six times in a row: the first
    transport and the five that the reconnects open all close with code
    1006. *)
Definition failure_round (k : nat) : list event :=
  [Socket_closes k 1006 ""; Timeout_fires (k + 2)].

Definition six_closures : list event :=
  Call_connect "feed" feed_url no_handlers
  :: failure_round 0 ++ failure_round 1 ++ failure_round 2 ++ failure_round 3
  ++ failure_round 4 ++ [Socket_closes 5 1006 ""].

(** C2, the code at five failed reconnects in a row: the closure of the
    fifth reconnect's transport schedules one more reconnect, announced as
    the first of five, and the status does not say that the connection
    failed. *)
Theorem reconnects_continue_past_maximum :
  let w := demo_run six_closures initial in
  maxReconnectAttempts w = 5 /\
  reconnect_delays "feed" w = [3000; 3000; 3000; 3000; 3000; 3000] /\
  timeouts w = [(1%nat, 10000, Hide_indicator);
                (7%nat, 3000, Reconnect "feed" feed_url no_handlers 0)] /\
  statusIndicator w = Some (Indicator "connecting" "Reconnecting... (1/5)" false).
Proof. vm_compute. repeat split. Qed.

(** On the example host, however many times the transport of [feed] fails
    in a row, the next failure schedules a reconnect after 3000 ms that
    carries attempt number 0. *)
Lemma feed_retrying : retrying "feed" feed_url no_handlers feed_connecting.
Proof.
  split; [exists 0%nat; split; reflexivity |].
  split; [reflexivity |]. split; [reflexivity |].
  repeat constructor.
Qed.

Lemma feed_backoff_never_grows (n : nat) :
  let w := Nat.iter n (fail_and_retry demo_parse demo_stringify demo_reject
                         "feed" 1006 "") feed_connecting in
  exists id,
    JsMap.get (connections w) "feed" = Some id /\
    timeouts (demo_deliver (Socket_closes id 1006 "") w) =
    timeouts w ++ [(next_timer w, 3000, Reconnect "feed" feed_url no_handlers 0)].
Proof.
  apply (backoff_never_grows demo_parse demo_stringify demo_reject
           "feed" feed_url no_handlers 1006 "" feed_connecting n);
    [reflexivity | exact I | discriminate | exact feed_retrying].
Qed.

(** C3, the code at a [disconnect] while a reconnect is pending: the
    transport of [feed] closes with code 1006, which schedules timer 2, and
    the caller disconnects [feed].  The timer is still pending, and when it
    fires a new transport for [feed] is opened and registered, without a
    call of [connect] by the caller. *)
Theorem disconnect_leaves_reconnect_pending :
  let w1 := demo_run [Call_connect "feed" feed_url no_handlers;
                      Socket_closes 0 1006 ""] initial in
  let w2 := demo_deliver (Call_disconnect "feed") w1 in
  let w3 := demo_deliver (Timeout_fires 2) w2 in
  find_timer (timeouts w1) 2 = Some (Reconnect "feed" feed_url no_handlers 0) /\
  connections w2 = [] /\
  find_timer (timeouts w2) 2 = Some (Reconnect "feed" feed_url no_handlers 0) /\
  connections w3 = [("feed"%string, 1%nat)] /\
  sockets w3 !! 1%nat = Some (Socket feed_url CONNECTING "feed" no_handlers).
Proof. vm_compute. repeat split. Qed.

(** C4 on an example: [connect] for the open connection [feed]. *)
Lemma at_most_one_live_transport_witness :
  let w := demo_run [Call_connect "feed" feed_url no_handlers; Socket_opens 0] initial in
  JsMap.get (connections w) "feed" = Some 0%nat /\
  (forall s, sockets (exec (connect demo_reject "feed" feed_url no_handlers) w) !! 0%nat
             = Some s -> is_live s = false).
Proof.
  split; [reflexivity |].
  apply (proj2 (at_most_one_live_transport demo_parse demo_stringify demo_reject
                  [Call_connect "feed" feed_url no_handlers; Socket_opens 0])
               "feed"%string feed_url no_handlers 0%nat).
  reflexivity.
Defined.

(** ** Closures on the example host (C5) *)

Definition failing_callback : callback :=
  Callback 7 (fun _ => Some (JErr "Error")).

Definition guarded_handlers : handlers :=
  Handlers None None (Some failing_callback) None.

(** C5 as the claim has it fails: the transport of a connection whose
    [onDisconnect] throws closes with code 1006, and the reconnect path is
    not taken; no timeout is added at all. *)
Lemma throwing_onDisconnect_skips_reconnect :
  let w := demo_run [Call_connect "feed" feed_url guarded_handlers] initial in
  let w' := demo_deliver (Socket_closes 0 1006 "") w in
  sockets w !! 0%nat = Some (Socket feed_url CONNECTING "feed" guarded_handlers) /\
  1006 <> 1000 /\
  timeouts w' = timeouts w /\
  ~ reconnect_path_taken "feed" feed_url guarded_handlers w w'.
Proof.
  cbv zeta. split; [reflexivity |]. split; [discriminate |].
  split; [reflexivity |].
  unfold reconnect_path_taken. vm_compute. discriminate.
Qed.

(** C5 on an example: code 1006 on a connection without handlers. *)
Lemma close_code_decides_reconnect_witness :
  let w := feed_connecting in
  sockets w !! 0%nat = Some (Socket feed_url CONNECTING "feed" no_handlers) /\
  CONNECTING <> CLOSED /\
  1006 <> 1000 /\
  onDisconnect_returns no_handlers 1006 "" /\
  reconnect_path_taken "feed" feed_url no_handlers w
    (demo_deliver (Socket_closes 0 1006 "") w).
Proof.
  cbv zeta.
  refine (conj eq_refl (conj _ (conj _ (conj I _)))); try discriminate.
  apply (proj2 (close_code_decides_reconnect demo_parse demo_stringify demo_reject
                  feed_connecting 0%nat
                  (Socket feed_url CONNECTING "feed" no_handlers) 1006 ""
                  eq_refl ltac:(discriminate))).
  - discriminate.
  - exact I.
Defined.

(** ** Frames and heartbeat on the example host (C7, C8, C10) *)


(** C8 on an example: the empty frame. *)
Lemma parse_failure_logged_and_dropped_witness :
  demo_parse "" = None /\
  result (ws_onmessage demo_parse "feed" no_handlers "") feed_open = Normal tt /\
  exec (ws_onmessage demo_parse "feed" no_handlers "") feed_open
  = emit (Console_error (parse_error_message "feed") [JErr "SyntaxError"]) feed_open.
Proof.
  split; [reflexivity |].
  pose proof (parse_failure_logged_and_dropped demo_parse "feed" no_handlers ""
                feed_open eq_refl) as H.
  cbv zeta in H. exact (conj (proj1 H) (proj1 (proj2 H))).
Defined.

Definition failing_onMessage : handlers :=
  Handlers None (Some failing_callback) None None.

Definition price_update : jsval :=
  JObj [("type"%string, JStr "price_update"); ("payload"%string, JStr "price_update")].

(** C10 on an example: an [onMessage] that throws on a price update. *)
Lemma throwing_onMessage_stops_broadcast_witness :
  demo_parse "price_update" = Some price_update /\
  ws_onmessage demo_parse "feed" failing_onMessage "price_update" feed_open =
  (Normal tt,
   emit (Console_error (parse_error_message "feed") [JErr "Error"])
     (emit (Invoke 7 [price_update]) feed_open)).
Proof.
  split; [reflexivity |].
  apply (throwing_onMessage_stops_broadcast demo_parse "feed" failing_onMessage
           failing_callback "price_update" price_update (JStr "price_update")
           (JErr "Error") feed_open); reflexivity.
Defined.

(** ** Subscriptions on the example host (C9) *)

Definition first_subscriber : callback := Callback 1 (fun _ => None).
Definition second_subscriber : callback := Callback 2 (fun _ => Some (JErr "Error")).
Definition other_subscriber : callback := Callback 3 (fun _ => None).

Definition pong : jsval :=
  JObj [("type"%string, JStr "pong"); ("payload"%string, JStr "pong")].

(** C9 as the claim has it fails.  A subscription of [price_update] is
    registered and the open connection [feed], whose [onMessage] throws,
    delivers a decoded [price_update]: the subscription is owed one call and
    gets none.  Likewise a subscription of [pong] gets no call when a
    connection without handlers delivers a decoded [pong]. *)
Lemma subscriber_misses_decoded_message :
  let w := demo_run [Call_subscribe "price_update" first_subscriber;
                     Call_connect "feed" feed_url failing_onMessage;
                     Socket_opens 0] initial in
  let v := demo_run [Call_subscribe "pong" first_subscriber;
                     Call_connect "feed" feed_url no_handlers;
                     Socket_opens 0] initial in
  (listeners w = [("price_update"%string, first_subscriber)] /\
   sockets w !! 0%nat = Some (Socket feed_url OPEN "feed" failing_onMessage) /\
   demo_parse "price_update" = Some price_update /\
   has_type price_update "price_update" = true /\
   subscription_calls (listeners w) "feed" price_update
   = [Invoke 1 [JStr "price_update"; JStr "feed"]] /\
   trace (demo_deliver (Socket_message 0 "price_update") w)
   = trace w ++ [Invoke 7 [price_update];
                 Console_error (parse_error_message "feed") [JErr "Error"]]) /\
  (listeners v = [("pong"%string, first_subscriber)] /\
   sockets v !! 0%nat = Some (Socket feed_url OPEN "feed" no_handlers) /\
   demo_parse "pong" = Some pong /\
   has_type pong "pong" = true /\
   subscription_calls (listeners v) "feed" pong
   = [Invoke 1 [JStr "pong"; JStr "feed"]] /\
   demo_deliver (Socket_message 0 "pong") v = v).
Proof. cbv zeta. repeat apply conj; vm_compute; reflexivity. Qed.

Definition fraud_alert : jsval :=
  JObj [("type"%string, JStr "fraud_alert"); ("payload"%string, JStr "fraud_alert")].

(** C9 on an example: two subscribers of [fraud_alert] and one of another
    type; a [fraud_alert] from [feed], which has no [onMessage], calls the
    two, in the order they subscribed. *)
Lemma decoded_message_reaches_subscribers_witness :
  let evs := [Call_subscribe "fraud_alert" second_subscriber;
              Call_subscribe "other" other_subscriber;
              Call_connect "feed" feed_url no_handlers;
              Call_subscribe "fraud_alert" first_subscriber;
              Socket_opens 0] in
  let w := demo_run evs initial in
  sockets w !! 0%nat = Some (Socket feed_url OPEN "feed" no_handlers) /\
  demo_parse "fraud_alert" = Some fraud_alert /\
  property fraud_alert "type" = Normal (JStr "fraud_alert") /\
  demo_deliver (Socket_message 0 "fraud_alert") w =
  emit_all [Dispatch "feed" fraud_alert;
            Invoke 2 [JStr "fraud_alert"; JStr "feed"];
            Invoke 1 [JStr "fraud_alert"; JStr "feed"]] w.
Proof.
  cbv zeta. refine (conj _ (conj _ (conj _ _))); [vm_compute; reflexivity .. |].
  exact (decoded_message_reaches_subscribers demo_parse demo_stringify demo_reject
           [Call_subscribe "fraud_alert" second_subscriber;
            Call_subscribe "other" other_subscriber;
            Call_connect "feed" feed_url no_handlers;
            Call_subscribe "fraud_alert" first_subscriber;
            Socket_opens 0]
           0%nat (Socket feed_url OPEN "feed" no_handlers) "fraud_alert"
           fraud_alert (JStr "fraud_alert") eq_refl eq_refl eq_refl eq_refl).
Defined.

(** * Further scenarios on the example host *)

Definition merchant_url : string := "wss://host/ws/merchant/".

(** Two open connections, [feed] on socket 0 and [merchant] on socket 1. *)
Definition two_feeds : world :=
  demo_run [Call_connect "feed" feed_url no_handlers;
            Call_connect "merchant" merchant_url no_handlers;
            Socket_opens 0; Socket_opens 1] initial.


(** X2 on an example: [connect] of [feed] while [feed] is open. *)
Lemma connect_registers_witness :
  let w' := exec (connect demo_reject "feed" feed_url no_handlers) feed_open in
  demo_reject feed_url = None /\
  JsMap.has (connections feed_open) "feed" = true /\
  JsMap.get (reconnectAttempts feed_open) "feed" = Some 0 /\
  JsMap.get (connections w') "feed" = Some 1%nat /\
  sockets w' !! 1%nat = Some (Socket feed_url CONNECTING "feed" no_handlers) /\
  JsMap.get (reconnectAttempts w') "feed" = None.
Proof.
  cbv zeta.
  pose proof (connect_registers demo_reject "feed" feed_url no_handlers feed_open
                eq_refl) as H.
  cbv zeta in H.
  exact (conj eq_refl
           (conj eq_refl
              (conj eq_refl
                 (conj (proj1 H)
                    (conj (proj1 (proj2 H))
                          (proj1 (proj2 (proj2 (proj2 (proj2 H)))) eq_refl)))))).
Defined.


(** X4 on an example. *)
Lemma disconnect_idempotent_witness :
  JsMap.has (connections initial) "feed" = false /\
  disconnect "feed" initial = (Normal tt, initial) /\
  disconnect "feed" (exec (disconnect "feed") feed_open)
  = (Normal tt, exec (disconnect "feed") feed_open).
Proof.
  exact (conj eq_refl
           (conj (proj1 (disconnect_idempotent "feed" initial) eq_refl)
                 (proj2 (disconnect_idempotent "feed" feed_open)))).
Defined.

(** X5 on an example: [disconnect] of the open connection [feed]. *)
Lemma disconnect_clears_name_witness :
  let w' := exec (disconnect "feed") feed_open in
  JsMap.get (connections feed_open) "feed" = Some 0%nat /\
  slot w' "feed" = (None, None, None, None) /\
  find_timer (intervals w') 2 = None /\
  trace w' = trace feed_open
             ++ [Clear_interval 2; Close_called 0 1000 "Intentional disconnect"].
Proof.
  cbv zeta.
  pose proof (disconnect_clears_name demo_parse demo_stringify demo_reject
                [Call_connect "feed" feed_url no_handlers; Socket_opens 0]
                "feed" 0%nat eq_refl) as H.
  cbv zeta in H.
  exact (conj eq_refl
           (conj (proj1 H)
              (conj (proj1 (proj2 (proj2 H)) 2%nat eq_refl)
                    (proj2 (proj2 (proj2 H)))))).
Defined.

(** X6 on an example: [feed] opens and then closes with code 1006. *)
Lemma open_resets_backoff_witness :
  sockets feed_connecting !! 0%nat
  = Some (Socket feed_url CONNECTING "feed" no_handlers) /\
  1006 <> 1000 /\
  0 < maxReconnectAttempts feed_connecting /\
  JsMap.get (reconnectAttempts feed_open) "feed" = Some 0 /\
  timeouts (demo_deliver (Socket_closes 0 1006 "") feed_open)
  = timeouts feed_open
    ++ [(next_timer feed_open, 3000, Reconnect "feed" feed_url no_handlers 0)].
Proof.
  assert (Hcode : 1006 <> 1000) by discriminate.
  pose proof (open_resets_backoff demo_parse demo_stringify demo_reject
                feed_connecting 0%nat
                (Socket feed_url CONNECTING "feed" no_handlers) 1006 ""
                eq_refl eq_refl Hcode I eq_refl) as H.
  cbv zeta in H.
  exact (conj eq_refl (conj Hcode (conj eq_refl H))).
Defined.

(** A host whose every frame decodes to the number 42. *)
Definition number_parse (raw : string) : option jsval := Some (JNum 42).

(** X7 on an example: the frame [null], and a frame that is a number. *)
Lemma frames_without_type_witness :
  demo_parse "null" = Some JNull /\
  ws_onmessage demo_parse "feed" no_handlers "null" feed_open
  = (Normal tt,
     emit (Console_error (parse_error_message "feed") [JErr "TypeError"]) feed_open) /\
  ws_onmessage number_parse "feed" no_handlers "42" feed_open
  = (Normal tt, emit (Dispatch "feed" (JNum 42)) feed_open).
Proof.
  exact (conj eq_refl
           (conj (proj1 (frames_without_type demo_parse "feed" no_handlers "null"
                           JNull feed_open eq_refl) eq_refl)
                 (proj2 (frames_without_type number_parse "feed" no_handlers "42"
                           (JNum 42) feed_open eq_refl) eq_refl I))).
Defined.


(** X10 on an example: the open transport of [feed] closes with code 1006. *)
Lemma closure_stops_heartbeat_witness :
  let w' := demo_deliver (Socket_closes 0 1006 "") feed_open in
  sockets feed_open !! 0%nat = Some (Socket feed_url OPEN "feed" no_handlers) /\
  JsMap.get (heartbeatTimers feed_open) "feed" = Some 2%nat /\
  JsMap.get (heartbeatTimers w') "feed" = None /\
  find_timer (intervals w') 2 = None.
Proof.
  cbv zeta.
  assert (Hr : OPEN <> CLOSED) by discriminate.
  pose proof (closure_stops_heartbeat demo_parse demo_stringify demo_reject
                [Call_connect "feed" feed_url no_handlers; Socket_opens 0]
                0%nat (Socket feed_url OPEN "feed" no_handlers) 1006 ""
                eq_refl Hr) as H.
  cbv zeta in H.
  exact (conj eq_refl (conj eq_refl (conj (proj1 H) (proj2 H 2%nat eq_refl)))).
Defined.

(** X11 on an example: the page is hidden while [feed] is open. *)
Lemma page_hidden_stops_heartbeats_witness :
  let w' := demo_deliver Page_hidden feed_open in
  JsMap.get (heartbeatTimers feed_open) "feed" = Some 2%nat /\
  heartbeatTimers w' = JsMap.empty /\
  registry w' = registry feed_open /\
  find_timer (intervals w') 2 = None.
Proof.
  cbv zeta.
  pose proof (page_hidden_stops_heartbeats demo_parse demo_stringify demo_reject
                feed_open) as H.
  cbv zeta in H.
  exact (conj eq_refl
           (conj (proj1 H)
              (conj (proj1 (proj2 H))
                    (proj1 (proj2 (proj2 H)) "feed"%string 2%nat eq_refl)))).
Defined.

